(** * pubg-leaderboard: the Redis cache store and the HTTP boundary

    A shallow embedding of [internal/store] (the [RedisClient] wrapper around
    a go-redis cluster client) and of [internal/api/server.go] (the gin
    handlers), together with the properties the design document states about
    them.

    Layout:
    - [time], [Context]  : durations and request contexts;
    - [model]            : the record shapes of package [model];
    - [Json]             : [json.Marshal] and [json.Unmarshal] as an interface;
    - [redis]            : the part of the Redis command set the store issues,
                           with key expiry, over one logical keyspace;
    - [store]            : the methods of [RedisClient], and the cache as a
                           state machine;
    - [service]          : the interface of the orchestration layer the
                           handlers call, and [spec_service], that layer as
                           the design document describes it;
    - [api]              : the handlers and the route table;
    - [json_text]        : a concrete JSON encoding to run everything on;
    - [example]          : the worlds of the design document's scenario;
    - [client]           : [NewRedisClient];
    - [layout]           : the time layout of the backup file name;
    - [cache_state]      : hashes, scheme keys and expiry bounds of a cache;
    - [sample]           : further inputs.

    The properties follow the definitions. *)

From Stdlib Require Import ZArith Lia Ascii DecimalString DecimalPos DecimalZ.
From stdpp Require Import base option strings list gmap fin_maps.

(** ** Go's [time.Duration]: a count of nanoseconds *)

Module time.
Local Open Scope Z_scope.
Definition Nanosecond : Z := 1.
Definition Microsecond : Z := 1000 * Nanosecond.
Definition Millisecond : Z := 1000 * Microsecond.
Definition Second : Z := 1000 * Millisecond.
Definition Minute : Z := 60 * Second.
Definition Hour : Z := 60 * Minute.
End time.

(** ** [context.Context]

    Only what the handlers and the store distinguish: the root context
    [context.Background()], which is never cancelled, and a request context,
    which is cancelled when the caller goes away. *)

Inductive Context : Type :=
| Background
| RequestContext (canceled : bool).

Definition ctx_done (ctx : Context) : bool :=
  match ctx with
  | Background => false
  | RequestContext canceled => canceled
  end.

(** ** Package [model] *)

Module model.

(** Modelled from the spec: package [model] is not among the sources; the
    design document gives a player's attributes as rank, games-played
    count and win count. Go's [int] is kept as [Z]. *)
Record PlayerAttribute : Type := {
  Rank : Z;
  GamesPlayed : Z;
  Wins : Z
}.

(** Modelled from the spec: an entry of [Included] carries a stable player
    identifier ([player.ID] in the store) and the embedded attributes
    ([player.Attributes]). *)
Record PlayerEntry : Type := {
  ID : string;
  Attributes : PlayerAttribute
}.

(** Modelled from the spec: the snapshot is the collection [Included],
    which the store ranges over in order. *)
Record LeaderboardResponse : Type := {
  Included : list PlayerEntry
}.

(** Modelled from the spec: the season record is an opaque season
    identifier. *)
Record SeasonData : Type := {
  SeasonID : string
}.

#[global] Instance PlayerAttribute_eq_dec : EqDecision PlayerAttribute.
Proof. solve_decision. Defined.
#[global] Instance PlayerEntry_eq_dec : EqDecision PlayerEntry.
Proof. solve_decision. Defined.
#[global] Instance LeaderboardResponse_eq_dec : EqDecision LeaderboardResponse.
Proof. solve_decision. Defined.
#[global] Instance SeasonData_eq_dec : EqDecision SeasonData.
Proof. solve_decision. Defined.

(** The identifiers of a snapshot, in order of appearance. *)
Definition player_ids (lb : LeaderboardResponse) : list string :=
  ID <$> Included lb.

(** The attributes of the last entry that carries identifier [id]: a later
    entry of [Included] overwrites an earlier one with the same key. *)
Fixpoint last_attributes (id : string) (l : list PlayerEntry)
  : option PlayerAttribute :=
  match l with
  | [] => None
  | e :: l' =>
      match last_attributes id l' with
      | Some a => Some a
      | None => if decide (ID e = id) then Some (Attributes e) else None
      end
  end.

End model.
Export model.

(** ** [encoding/json]

    [json.Marshal] and [json.Unmarshal] at one record type. Both can fail;
    the store only looks at whether they did. *)

Class Json (A : Type) : Type := {
  Marshal : A → option string;
  Unmarshal : string → option A
}.

(** What the data model promises of its serialization: decoding what was
    encoded gives the record back. *)
Class Lossless (A : Type) `{Json A} : Prop :=
  lossless : ∀ (x : A) (data : string), Marshal x = Some data → Unmarshal data = Some x.

(** ** The Redis backend

    One logical keyspace with a clock. A key holds a string or a hash and
    may carry an expiry instant; an entry whose instant has passed is absent
    for every command. The cluster can be unreachable, and a call made under
    a cancelled context is not sent. A transaction ([MULTI]/[EXEC], as
    [TxPipeline] issues it) runs its queue in order with nothing in between;
    as in Redis, a command that fails inside it does not undo the others. *)

Module redis.
Local Open Scope Z_scope.

Inductive Error : Type :=
| Nil            (* redis.Nil: the key or field does not exist *)
| WrongType      (* WRONGTYPE: the key holds the other kind of value *)
| Unreachable    (* no node answered *)
| Canceled.      (* the context was done *)

#[global] Instance Error_eq_dec : EqDecision Error.
Proof. solve_decision. Defined.

Inductive value : Type :=
| VString (s : string)
| VHash (h : gmap string string).

Record entry : Type := Entry {
  val : value;
  expire_at : option Z
}.

Record Cluster : Type := {
  keyspace : gmap string entry;
  clock : Z;
  reachable : bool
}.

Definition empty : Cluster :=
  {| keyspace := ∅; clock := 0; reachable := true |}.

Definition with_keyspace (db : Cluster) (ks : gmap string entry) : Cluster :=
  {| keyspace := ks; clock := clock db; reachable := reachable db |}.

Definition expired (now : Z) (e : entry) : bool :=
  match expire_at e with
  | Some t => bool_decide (t ≤ now)
  | None => false
  end.

(** The entry a command sees under key [k]. *)
Definition live (db : Cluster) (k : string) : option entry :=
  match keyspace db !! k with
  | Some e => if expired (clock db) e then None else Some e
  | None => None
  end.

Inductive Cmd : Type :=
| PING
| GET (key : string)
| SET (key value : string) (expiration : Z)
| HGET (key field : string)
| HSET (key field value : string)
| EXPIRE (key : string) (expiration : Z).

Inductive Reply : Type :=
| Status (s : string)
| Bulk (s : string)
| Int (n : Z).

(** The expiry instant of a [SET]: go-redis sends [EX] for a positive
    expiration and none for a zero one. The store only passes positive
    ones, in whole seconds. *)
Definition deadline (db : Cluster) (expiration : Z) : option Z :=
  if bool_decide (0 < expiration) then Some (clock db + expiration) else None.

(** One command on a reachable node. *)
Definition run (c : Cmd) (db : Cluster) : (Error + Reply) * Cluster :=
  match c with
  | PING => (inr (Status "PONG"), db)
  | GET k =>
      match live db k with
      | None => (inl Nil, db)
      | Some (Entry (VString s) _) => (inr (Bulk s), db)
      | Some (Entry (VHash _) _) => (inl WrongType, db)
      end
  | SET k v expiration =>
      (inr (Status "OK"),
       with_keyspace db (<[k := Entry (VString v) (deadline db expiration)]> (keyspace db)))
  | HGET k f =>
      match live db k with
      | None => (inl Nil, db)
      | Some (Entry (VString _) _) => (inl WrongType, db)
      | Some (Entry (VHash h) _) =>
          match h !! f with
          | Some v => (inr (Bulk v), db)
          | None => (inl Nil, db)
          end
      end
  | HSET k f v =>
      match live db k with
      | None =>
          (inr (Int 1),
           with_keyspace db (<[k := Entry (VHash {[f := v]}) None]> (keyspace db)))
      | Some (Entry (VString _) _) => (inl WrongType, db)
      | Some (Entry (VHash h) t) =>
          (inr (Int (match h !! f with Some _ => 0 | None => 1 end)),
           with_keyspace db (<[k := Entry (VHash (<[f := v]> h)) t]> (keyspace db)))
      end
  | EXPIRE k expiration =>
      match live db k with
      | None => (inr (Int 0), db)
      | Some (Entry v _) =>
          (inr (Int 1),
           if bool_decide (0 < expiration)
           then with_keyspace db (<[k := Entry v (Some (clock db + expiration))]> (keyspace db))
           else with_keyspace db (delete k (keyspace db)))
      end
  end.

(** What stands between the client and [run]: the context and the
    network. *)
Definition refused (ctx : Context) (db : Cluster) : option Error :=
  if ctx_done ctx then Some Canceled
  else if reachable db then None
  else Some Unreachable.

(** [client.Cmd(ctx, ...).Result()] for a single command. *)
Definition call (ctx : Context) (c : Cmd) (db : Cluster) : (Error + Reply) * Cluster :=
  match refused ctx db with
  | Some e => (inl e, db)
  | None => run c db
  end.

(** The queue of a transaction in order, with the first error met. *)
Fixpoint run_queue (q : list Cmd) (db : Cluster) : option Error * Cluster :=
  match q with
  | [] => (None, db)
  | c :: q' =>
      let '(r, db1) := run c db in
      let '(err, db2) := run_queue q' db1 in
      (match r with inl e => Some e | inr _ => err end, db2)
  end.

(** [pipe.Exec(ctx)] of a [TxPipeline]: all of the queue, or none of it
    when the transaction cannot be sent. *)
Definition Exec (ctx : Context) (pipe : list Cmd) (db : Cluster) : option Error * Cluster :=
  match refused ctx db with
  | Some e => (Some e, db)
  | None => run_queue pipe db
  end.

(** The bulk string of a reply, as [StringCmd.Result] gives it. *)
Definition Result (r : Error + Reply) : Error + string :=
  match r with
  | inl e => inl e
  | inr (Bulk s) => inr s
  | inr (Status s) => inr s
  | inr (Int _) => inr EmptyString
  end.

End redis.

(** ** Go [error] values

    The values the store returns: its sentinel, an error of go-redis handed
    on as it is, or a fresh [fmt.Errorf] message, which keeps only the text
    of its cause. *)

Inductive Cause : Type :=
| MarshalFailure
| UnmarshalFailure
| RedisFailure (e : redis.Error).

(** Modelled from the spec: the failures of the service layer, of the backup
    codec and of blob storage, which live in package [service], not among the
    sources. *)
Inductive ServiceFailure : Type :=
| NothingToBackup
| BackupEncodeError
| RestoreDecodeError
| StorageReadError
| StorageWriteError
| UpstreamUnavailable.

Inductive error : Type :=
| ErrCacheMiss
| RedisError (e : redis.Error)
| Errorf (msg : string) (cause : Cause)
| ServiceError (f : ServiceFailure).

#[global] Instance Cause_eq_dec : EqDecision Cause.
Proof. solve_decision. Defined.
#[global] Instance ServiceFailure_eq_dec : EqDecision ServiceFailure.
Proof. solve_decision. Defined.
#[global] Instance error_eq_dec : EqDecision error.
Proof. solve_decision. Defined.

(** The design document's names for the store's failures. *)
Definition EncodeError (e : error) : Prop :=
  (∃ msg, e = Errorf msg MarshalFailure) ∨ e = ServiceError BackupEncodeError.
Definition BackendWriteError (e : error) : Prop := ∃ msg r, e = Errorf msg (RedisFailure r).

(** A Go result pair [(value, error)]. *)
Inductive result (A : Type) : Type :=
| Ok (a : A)
| Err (e : error).
Arguments Ok {A} a.
Arguments Err {A} e.

(** ** Package [store]: the methods of [RedisClient] *)

Module store.
Import redis.
Local Open Scope Z_scope.

Definition player_key (playerID : string) : string := "player_stats:" +:+ playerID.

Definition ten_minutes : Z := 10 * time.Minute.
Definition one_day : Z := 24 * time.Hour.

Section Methods.
Context `{JL : Json LeaderboardResponse, JA : Json PlayerAttribute, JS : Json SeasonData}.

(** [Ping] *)
Definition Ping (ctx : Context) (rc : Cluster) : option error * Cluster :=
  let '(r, rc) := call ctx PING rc in
  (match r with inl e => Some (RedisError e) | inr _ => None end, rc).

(** [GetLeaderboard] *)
Definition GetLeaderboard (ctx : Context) (rc : Cluster)
  : result LeaderboardResponse * Cluster :=
  let '(r, rc) := call ctx (GET "leaderboard") rc in
  match Result r with
  | inl Nil => (Err ErrCacheMiss, rc)
  | inl e => (Err (RedisError e), rc)
  | inr data =>
      match Unmarshal data with
      | None =>
          (Err (Errorf "redisclient - error unmarshalling leaderboard data" UnmarshalFailure), rc)
      | Some leaderboard => (Ok leaderboard, rc)
      end
  end.

(** The body of the loop over [leaderboardData.Included]: each player
    adds an [HSET] and an [EXPIRE] to the pipeline; a player that does
    not serialize ends the method. *)
Fixpoint queue_players (players : list PlayerEntry) (pipe : list Cmd)
  : error + list Cmd :=
  match players with
  | [] => inr pipe
  | player :: rest =>
      match Marshal (Attributes player) with
      | None => inl (Errorf "redisclient - error marshaling player stats" MarshalFailure)
      | Some playerStatsJSON =>
          let pipe := pipe ++ [HSET (player_key (ID player)) "stats" playerStatsJSON] in
          let pipe := pipe ++ [EXPIRE (player_key (ID player)) ten_minutes] in
          queue_players rest pipe
      end
  end.

(** [UpdateLeaderboard] *)
Definition UpdateLeaderboard (ctx : Context) (leaderboardData : LeaderboardResponse)
    (rc : Cluster) : option error * Cluster :=
  match Marshal leaderboardData with
  | None =>
      (Some (Errorf "redisclient - error marshaling entire leaderboard data" MarshalFailure), rc)
  | Some leaderboardJSON =>
      let pipe := [] in
      let pipe := pipe ++ [SET "leaderboard" leaderboardJSON ten_minutes] in
      match queue_players (Included leaderboardData) pipe with
      | inl err => (Some err, rc)
      | inr pipe =>
          let '(err, rc) := Exec ctx pipe rc in
          match err with
          | Some e =>
              (Some (Errorf "redisclient - error updating leaderboard in Redis" (RedisFailure e)), rc)
          | None => (None, rc)
          end
      end
  end.

(** [GetPlayerStats] *)
Definition GetPlayerStats (ctx : Context) (playerID : string) (rc : Cluster)
  : result PlayerAttribute * Cluster :=
  let '(r, rc) := call ctx (HGET (player_key playerID) "stats") rc in
  match Result r with
  | inl Nil => (Err ErrCacheMiss, rc)
  | inl e => (Err (RedisError e), rc)
  | inr data =>
      match Unmarshal data with
      | None =>
          (Err (Errorf "redisclient - error unmarshalling player stats" UnmarshalFailure), rc)
      | Some playerStats => (Ok playerStats, rc)
      end
  end.

(** [GetSeason] *)
Definition GetSeason (ctx : Context) (rc : Cluster) : result SeasonData * Cluster :=
  let '(r, rc) := call ctx (GET "current_season") rc in
  match Result r with
  | inl Nil => (Err ErrCacheMiss, rc)
  | inl e => (Err (RedisError e), rc)
  | inr data =>
      match Unmarshal data with
      | None =>
          (Err (Errorf "redisclient - error unmarshalling season data" UnmarshalFailure), rc)
      | Some season => (Ok season, rc)
      end
  end.

(** [UpdateSeason] *)
Definition UpdateSeason (ctx : Context) (season : SeasonData) (rc : Cluster)
  : option error * Cluster :=
  match Marshal season with
  | None => (Some (Errorf "redisclient - error marshalling season data" MarshalFailure), rc)
  | Some data =>
      let '(r, rc) := call ctx (SET "current_season" data one_day) rc in
      (match r with inl e => Some (RedisError e) | inr _ => None end, rc)
  end.

End Methods.

(** *** The queue as the design document describes it *)

Section Transaction.
Context `{JL : Json LeaderboardResponse, JA : Json PlayerAttribute}.

(** For every player of the snapshot: the [stats] field of the player's
    hash, then the expiry of that hash. *)
Fixpoint player_queue (players : list PlayerEntry) : option (list Cmd) :=
  match players with
  | [] => Some []
  | player :: rest =>
      js ← Marshal (Attributes player);
      q ← player_queue rest;
      Some (HSET (player_key (ID player)) "stats" js
              :: EXPIRE (player_key (ID player)) ten_minutes :: q)
  end.

(** The [leaderboard] key first, then every player. *)
Definition transaction (lb : LeaderboardResponse) : option (list Cmd) :=
  js ← Marshal lb;
  q ← player_queue (Included lb);
  Some (SET "leaderboard" js ten_minutes :: q).

(** How [UpdateLeaderboard] reports the outcome of [Exec]. *)
Definition report (r : option Error * Cluster) : option error * Cluster :=
  (match r.1 with
   | Some e => Some (Errorf "redisclient - error updating leaderboard in Redis" (RedisFailure e))
   | None => None
   end, r.2).

End Transaction.

(** *** Auxiliary notions on cache states *)

(** The hash a player's key holds after its [HSET] and [EXPIRE]. *)
Definition stats_entry (db : Cluster) (k js : string) : entry :=
  Entry (VHash (<["stats" := js]>
                  match live db k with
                  | Some (Entry (VHash h) _) => h
                  | _ => ∅
                  end))
        (Some (clock db + ten_minutes)).

Definition holds_string (db : Cluster) (k : string) : Prop :=
  ∃ s t, live db k = Some (Entry (VString s) t).

(** The key scheme: [leaderboard] and [current_season] hold strings, a
    [player_stats:] key holds a hash with a [stats] field. *)
Definition follows_scheme (rc : Cluster) : Prop :=
  (∀ e, keyspace rc !! "leaderboard" = Some e → ∃ s, val e = VString s) ∧
  (∀ e, keyspace rc !! "current_season" = Some e → ∃ s, val e = VString s) ∧
  (∀ id e, keyspace rc !! player_key id = Some e →
     ∃ h, val e = VHash h ∧ is_Some (h !! "stats")).


(** The expiration a command carries, and the key it writes. *)
Definition expiration_of (c : Cmd) : option Z :=
  match c with
  | SET _ _ expiration | EXPIRE _ expiration => Some expiration
  | _ => None
  end.

Definition written_key (c : Cmd) : option string :=
  match c with
  | SET k _ _ | HSET k _ _ | EXPIRE k _ => Some k
  | _ => None
  end.

(** Time passing on the backend's clock. *)
Definition elapse (d : N) (rc : Cluster) : Cluster :=
  {| keyspace := keyspace rc; clock := clock rc + Z.of_N d; reachable := reachable rc |}.

(** The cluster going away or coming back. *)
Definition set_reachable (up : bool) (rc : Cluster) : Cluster :=
  {| keyspace := keyspace rc; clock := clock rc; reachable := up |}.

(** *** The cache as a state machine *)

Inductive Call : Type :=
| CallPing (ctx : Context)
| CallGetLeaderboard (ctx : Context)
| CallUpdateLeaderboard (ctx : Context) (lb : LeaderboardResponse)
| CallGetPlayerStats (ctx : Context) (playerID : string)
| CallGetSeason (ctx : Context)
| CallUpdateSeason (ctx : Context) (season : SeasonData)
| Elapse (d : N)
| Outage (up : bool).

Section Machine.
Context `{JL : Json LeaderboardResponse, JA : Json PlayerAttribute, JS : Json SeasonData}.

Definition step (rc : Cluster) (c : Call) : Cluster :=
  match c with
  | CallPing ctx => (Ping ctx rc).2
  | CallGetLeaderboard ctx => (GetLeaderboard ctx rc).2
  | CallUpdateLeaderboard ctx lb => (UpdateLeaderboard ctx lb rc).2
  | CallGetPlayerStats ctx playerID => (GetPlayerStats ctx playerID rc).2
  | CallGetSeason ctx => (GetSeason ctx rc).2
  | CallUpdateSeason ctx season => (UpdateSeason ctx season rc).2
  | Elapse d => elapse d rc
  | Outage up => set_reachable up rc
  end.

Definition run_calls (calls : list Call) (rc : Cluster) : Cluster :=
  foldl step rc calls.

(** The states the store can bring an empty cache into. *)
Definition reachable_state (rc : Cluster) : Prop :=
  ∃ calls, rc = run_calls calls redis.empty.


(** The cached snapshot and the players' keys agree: every player of the
    snapshot under [leaderboard] has its hash, with the snapshot's expiry
    instant and the player's serialized attributes. *)
Definition coherent (rc : Cluster) : Prop :=
  ∀ e, keyspace rc !! "leaderboard" = Some e →
    ∃ lb js T, e = Entry (VString js) (Some T) ∧ Marshal lb = Some js ∧
      ∀ id a, last_attributes id (Included lb) = Some a →
        ∃ h js', Marshal a = Some js' ∧
          keyspace rc !! player_key id = Some (Entry (VHash h) (Some T)) ∧
          h !! "stats" = Some js'.

End Machine.
End store.

(** ** Package [service]

    The handlers call five methods of [service.LeaderboardService]. The
    package itself is not among the sources; [LeaderboardService] below is
    the interface the handlers use, and [spec_service] an implementation
    that follows the design document. *)

Module service.

(** Modelled from the spec: blob storage is a named-object put/get keyed by
    container and object name; it can be out of reach. *)
Record BlobStore : Type := {
  objects : gmap (string * string) string;
  available : bool
}.

(** Modelled from the spec: the upstream provider hands over a fully parsed
    season, and the leaderboard of a season, or fails. *)
Record Upstream : Type := {
  FetchCurrentSeason : option SeasonData;
  FetchCurrentLeaderboard : string → option LeaderboardResponse
}.

(** What a request can touch. *)
Record World : Type := {
  cache : redis.Cluster;
  blobs : BlobStore;
  provider : Upstream
}.

Definition with_cache (w : World) (rc : redis.Cluster) : World :=
  {| cache := rc; blobs := blobs w; provider := provider w |}.

Definition with_blobs (w : World) (bs : BlobStore) : World :=
  {| cache := cache w; blobs := bs; provider := provider w |}.

(** The methods of [*service.LeaderboardService] as [server.go] calls them. *)
Record LeaderboardService : Type := {
  GetCurrentSeason : Context → World → result SeasonData * World;
  GetCurrentLeaderboard : Context → World → result LeaderboardResponse * World;
  GetPlayerStats : Context → string → World → result (Z * Z * Z) * World;
  BackupLeaderboardData : Context → string → string → World → option error * World;
  RestoreLeaderboardData : Context → string → string → World → option error * World
}.

End service.

Module spec_service.
Import service.

Section Service.
Context `{JL : Json LeaderboardResponse, JA : Json PlayerAttribute, JS : Json SeasonData}.

(** Modelled from the spec: [Backup(snapshot, destinationName)] encodes the
    snapshot to a byte blob and uploads it under [destinationName]; it fails
    with an encode error or a storage write error, and then nothing is
    stored. *)
Definition Backup (destination : string) (snapshot : LeaderboardResponse)
    (destinationName : string) (bs : BlobStore) : option error * BlobStore :=
  match Marshal snapshot with
  | None => (Some (ServiceError BackupEncodeError), bs)
  | Some blob =>
      if available bs
      then (None, {| objects := <[(destination, destinationName) := blob]> (objects bs);
                     available := available bs |})
      else (Some (ServiceError StorageWriteError), bs)
  end.

(** Modelled from the spec: [Restore(sourceName)] downloads the named blob
    and decodes it; it fails with a storage read error when the blob is
    missing and with a decode error when it does not parse. It only reads. *)
Definition Restore (source sourceName : string) (bs : BlobStore)
  : result LeaderboardResponse :=
  if available bs
  then match objects bs !! (source, sourceName) with
       | None => Err (ServiceError StorageReadError)
       | Some blob =>
           match Unmarshal blob with
           | None => Err (ServiceError RestoreDecodeError)
           | Some snapshot => Ok snapshot
           end
       end
  else Err (ServiceError StorageReadError).

(** Modelled from the spec: [GetCurrentSeason] tries the cache; on a cache
    miss it fetches the season from the provider, stores it with
    [UpdateSeason] and returns it; a provider failure is
    [UpstreamUnavailable]; any other error goes up unchanged. *)
Definition GetCurrentSeason (ctx : Context) (w : World) : result SeasonData * World :=
  let '(r, rc) := store.GetSeason ctx (cache w) in
  match r with
  | Ok season => (Ok season, with_cache w rc)
  | Err ErrCacheMiss =>
      match FetchCurrentSeason (provider w) with
      | None => (Err (ServiceError UpstreamUnavailable), with_cache w rc)
      | Some season =>
          let '(err, rc) := store.UpdateSeason ctx season rc in
          match err with
          | Some e => (Err e, with_cache w rc)
          | None => (Ok season, with_cache w rc)
          end
      end
  | Err e => (Err e, with_cache w rc)
  end.

(** Modelled from the spec: [GetCurrentLeaderboard] follows the same
    pattern against [GetLeaderboard] and [UpdateLeaderboard]; the provider
    is asked for the leaderboard of the current season. *)
Definition GetCurrentLeaderboard (ctx : Context) (w : World)
  : result LeaderboardResponse * World :=
  let '(r, rc) := store.GetLeaderboard ctx (cache w) in
  match r with
  | Ok leaderboard => (Ok leaderboard, with_cache w rc)
  | Err ErrCacheMiss =>
      let '(s, w) := GetCurrentSeason ctx (with_cache w rc) in
      match s with
      | Err e => (Err e, w)
      | Ok season =>
          match FetchCurrentLeaderboard (provider w) (SeasonID season) with
          | None => (Err (ServiceError UpstreamUnavailable), w)
          | Some leaderboard =>
              let '(err, rc) := store.UpdateLeaderboard ctx leaderboard (cache w) in
              match err with
              | Some e => (Err e, with_cache w rc)
              | None => (Ok leaderboard, with_cache w rc)
              end
          end
      end
  | Err e => (Err e, with_cache w rc)
  end.

(** Modelled from the spec: [GetPlayerStats] tries the per-player key first;
    on a miss it falls back to the full leaderboard and looks the player up
    there; the cache miss reaches the caller only when the player is not in
    that leaderboard. *)
Definition GetPlayerStats (ctx : Context) (playerID : string) (w : World)
  : result (Z * Z * Z) * World :=
  let '(r, rc) := store.GetPlayerStats ctx playerID (cache w) in
  match r with
  | Ok a => (Ok (Rank a, GamesPlayed a, Wins a), with_cache w rc)
  | Err ErrCacheMiss =>
      let '(l, w) := GetCurrentLeaderboard ctx (with_cache w rc) in
      match l with
      | Err e => (Err e, w)
      | Ok leaderboard =>
          match last_attributes playerID (Included leaderboard) with
          | Some a => (Ok (Rank a, GamesPlayed a, Wins a), w)
          | None => (Err ErrCacheMiss, w)
          end
      end
  | Err e => (Err e, with_cache w rc)
  end.

(** Modelled from the spec: [BackupLeaderboardData(destination, name)] reads
    the cached snapshot, fails with [NothingToBackup] when none is cached,
    and otherwise hands the snapshot to [Backup]. *)
Definition BackupLeaderboardData (ctx : Context) (destination name : string) (w : World)
  : option error * World :=
  let '(r, rc) := store.GetLeaderboard ctx (cache w) in
  match r with
  | Err ErrCacheMiss => (Some (ServiceError NothingToBackup), with_cache w rc)
  | Err e => (Some e, with_cache w rc)
  | Ok snapshot =>
      let '(err, bs) := Backup destination snapshot name (blobs w) in
      (err, with_blobs (with_cache w rc) bs)
  end.

(** Modelled from the spec: [RestoreLeaderboardData(source, name)] restores
    the snapshot and writes it through [UpdateLeaderboard]. *)
Definition RestoreLeaderboardData (ctx : Context) (source name : string) (w : World)
  : option error * World :=
  match Restore source name (blobs w) with
  | Err e => (Some e, w)
  | Ok snapshot =>
      let '(err, rc) := store.UpdateLeaderboard ctx snapshot (cache w) in
      (err, with_cache w rc)
  end.

Definition leaderboardService : LeaderboardService :=
  {| service.GetCurrentSeason := GetCurrentSeason;
     service.GetCurrentLeaderboard := GetCurrentLeaderboard;
     service.GetPlayerStats := GetPlayerStats;
     service.BackupLeaderboardData := BackupLeaderboardData;
     service.RestoreLeaderboardData := RestoreLeaderboardData |}.

End Service.
End spec_service.

(** ** Package [api]: the handlers of [server.go]

    A handler reads the request, calls the store or the service and answers
    with one [c.JSON(status, body)]. Logging is left out. *)

Module api.
Import service.
Local Open Scope Z_scope.

Definition StatusOK : Z := 200.
Definition StatusBadRequest : Z := 400.
Definition StatusNotFound : Z := 404.
Definition StatusInternalServerError : Z := 500.

(** What a handler reads of [*gin.Context]: the request's context, the path
    parameter [playerID] and the query parameter [file]. *)
Record gin_Context : Type := {
  Request_Context : Context;
  Param_playerID : string;
  Query_file : string
}.

Inductive Value : Type :=
| Str (s : string)
| Num (n : Z)
| Season (s : SeasonData).

Inductive Body : Type :=
| H (fields : list (string * Value))
| Leaderboard (lb : LeaderboardResponse).

Record Response : Type := {
  status : Z;
  body : Body
}.

Definition JSON (code : Z) (obj : Body) : Response := {| status := code; body := obj |}.

Section Handlers.
Variable leaderboardService : LeaderboardService.
(** [time.Now().Format("20060102_150405")] at the time of the request. *)
Variable timestamp : string.

Definition handlePing (c : gin_Context) (w : World) : Response * World :=
  (JSON StatusOK (H [("message", Str "pong")]), w).

Definition handleRedisPing (c : gin_Context) (w : World) : Response * World :=
  let '(err, rc) := store.Ping (Request_Context c) (cache w) in
  match err with
  | Some _ =>
      (JSON StatusInternalServerError (H [("error", Str "Failed to ping Redis")]), with_cache w rc)
  | None => (JSON StatusOK (H [("message", Str "pong")]), with_cache w rc)
  end.

Definition handleGetCurrentSeason (c : gin_Context) (w : World) : Response * World :=
  let '(r, w) := GetCurrentSeason leaderboardService Background w in
  match r with
  | Err _ =>
      (JSON StatusInternalServerError (H [("error", Str "Failed to get current season")]), w)
  | Ok seasonData => (JSON StatusOK (H [("seasonData", Season seasonData)]), w)
  end.

Definition handleGetCurrentLeaderboard (c : gin_Context) (w : World) : Response * World :=
  let '(r, w) := GetCurrentLeaderboard leaderboardService Background w in
  match r with
  | Err _ =>
      (JSON StatusInternalServerError (H [("error", Str "Failed to get current leaderboard")]), w)
  | Ok leaderboardData => (JSON StatusOK (Leaderboard leaderboardData), w)
  end.

Definition handleGetPlayerStats (c : gin_Context) (w : World) : Response * World :=
  let playerID := Param_playerID c in
  let '(r, w) := GetPlayerStats leaderboardService Background playerID w in
  match r with
  | Err err =>
      if decide (err = ErrCacheMiss)
      then (JSON StatusNotFound (H [("error", Str "Player stats not found")]), w)
      else (JSON StatusInternalServerError (H [("error", Str "Failed to get player stats")]), w)
  | Ok (rank, gamesPlayed, wins) =>
      (JSON StatusOK (H [("playerID", Str playerID); ("rank", Num rank);
                         ("gamesPlayed", Num gamesPlayed); ("wins", Num wins)]), w)
  end.

Definition handleBackupLeaderboard (c : gin_Context) (w : World) : Response * World :=
  let bucketName := "pubg-leaderboard" in
  let backupFileName := "leaderboard_backup_" +:+ timestamp +:+ ".json" in
  let '(err, w) :=
    BackupLeaderboardData leaderboardService (Request_Context c) bucketName backupFileName w in
  match err with
  | Some _ =>
      (JSON StatusInternalServerError (H [("error", Str "Failed to backup leaderboard data")]), w)
  | None =>
      (JSON StatusOK (H [("message", Str "Leaderboard data backed up successfully");
                         ("bucket", Str bucketName); ("file", Str backupFileName)]), w)
  end.

Definition handleRestoreLeaderboard (c : gin_Context) (w : World) : Response * World :=
  let bucketName := "pubg-leaderboard" in
  let backupFileName := Query_file c in
  if decide (backupFileName = EmptyString)
  then (JSON StatusBadRequest (H [("error", Str "Backup file name is required")]), w)
  else
    let '(err, w) :=
      RestoreLeaderboardData leaderboardService (Request_Context c) bucketName backupFileName w in
    match err with
    | Some _ =>
        (JSON StatusInternalServerError (H [("error", Str "Failed to restore leaderboard data")]), w)
    | None =>
        (JSON StatusOK (H [("message", Str "Leaderboard data restored successfully");
                           ("bucket", Str bucketName); ("file", Str backupFileName)]), w)
    end.



(** The request as the caller made it, with another context. *)
Definition with_context (c : gin_Context) (ctx : Context) : gin_Context :=
  {| Request_Context := ctx; Param_playerID := Param_playerID c; Query_file := Query_file c |}.

End Handlers.



End api.

(** ** A JSON text encoding of the records

    An instance of [Json] to run the store on: objects with the fields in
    declaration order, decimal integers, and strings with the quote and the
    backslash escaped. The decoder is strict: it accepts what the encoder
    writes and nothing else. *)

Module json_text.

Definition quote : ascii := "034"%char.
Definition backslash : ascii := "092"%char.

Definition quoted (s : string) : string := String quote (s +:+ String quote EmptyString).

(** [lit] at the head of [s], and what follows it. *)
Fixpoint expect (lit s : string) : option string :=
  match lit with
  | EmptyString => Some s
  | String c lit' =>
      match s with
      | String d s' => if decide (c = d) then expect lit' s' else None
      | EmptyString => None
      end
  end.

(** *** Integers *)

Definition is_number_char (c : ascii) : bool :=
  match c with
  | "-" | "0" | "1" | "2" | "3" | "4" | "5" | "6" | "7" | "8" | "9" => true
  | _ => false
  end%char.

(** A text at which a number ends. *)
Definition stops_number (s : string) : Prop :=
  match s with
  | EmptyString => True
  | String c _ => is_number_char c = false
  end.

Definition print_int (z : Z) : string := NilZero.string_of_int (Z.to_int z).

(** The longest prefix made of sign and digits. *)
Fixpoint number_prefix (s : string) : string * string :=
  match s with
  | EmptyString => (EmptyString, EmptyString)
  | String c s' =>
      if is_number_char c
      then let '(tok, rest) := number_prefix s' in (String c tok, rest)
      else (EmptyString, s)
  end.

Definition parse_int (s : string) : option (Z * string) :=
  let '(tok, rest) := number_prefix s in
  d ← NilZero.int_of_string tok;
  Some (Z.of_int d, rest).

(** *** Strings *)

Fixpoint escape (s : string) : string :=
  match s with
  | EmptyString => EmptyString
  | String c s' =>
      if decide (c = quote ∨ c = backslash)
      then String backslash (String c (escape s'))
      else String c (escape s')
  end.

(** The text up to the closing quote, unescaped, and what follows the
    quote. *)
Fixpoint unescape (s : string) : option (string * string) :=
  match s with
  | EmptyString => None
  | String c s' =>
      if decide (c = quote) then Some (EmptyString, s')
      else if decide (c = backslash)
      then match s' with
           | EmptyString => None
           | String d s'' =>
               if decide (d = quote ∨ d = backslash)
               then '(r, rest) ← unescape s''; Some (String d r, rest)
               else None
           end
      else '(r, rest) ← unescape s'; Some (String c r, rest)
  end.

Definition print_string (s : string) : string :=
  String quote (escape s +:+ String quote EmptyString).

Definition parse_string (s : string) : option (string * string) :=
  match s with
  | String c s' => if decide (c = quote) then unescape s' else None
  | EmptyString => None
  end.

(** *** Records *)

Definition key (name : string) : string := quoted name +:+ ":".

Definition print_attributes (a : PlayerAttribute) : string :=
  "{" +:+ key "rank" +:+ print_int (Rank a)
      +:+ "," +:+ key "gamesPlayed" +:+ print_int (GamesPlayed a)
      +:+ "," +:+ key "wins" +:+ print_int (Wins a) +:+ "}".

Definition parse_attributes (s : string) : option (PlayerAttribute * string) :=
  s ← expect ("{" +:+ key "rank") s;
  '(rank, s) ← parse_int s;
  s ← expect ("," +:+ key "gamesPlayed") s;
  '(gamesPlayed, s) ← parse_int s;
  s ← expect ("," +:+ key "wins") s;
  '(wins, s) ← parse_int s;
  s ← expect "}" s;
  Some ({| Rank := rank; GamesPlayed := gamesPlayed; Wins := wins |}, s).

Definition print_entry (e : PlayerEntry) : string :=
  "{" +:+ key "id" +:+ print_string (ID e)
      +:+ "," +:+ key "attributes" +:+ print_attributes (Attributes e) +:+ "}".

Definition parse_entry (s : string) : option (PlayerEntry * string) :=
  s ← expect ("{" +:+ key "id") s;
  '(id, s) ← parse_string s;
  s ← expect ("," +:+ key "attributes") s;
  '(a, s) ← parse_attributes s;
  s ← expect "}" s;
  Some ({| ID := id; Attributes := a |}, s).

(** The entries after the first, each behind its comma, up to the closing
    bracket. *)
Fixpoint print_more (l : list PlayerEntry) : string :=
  match l with
  | [] => "]"
  | e :: l' => "," +:+ print_entry e +:+ print_more l'
  end.

Definition print_entries (l : list PlayerEntry) : string :=
  match l with
  | [] => "[]"
  | e :: l' => "[" +:+ print_entry e +:+ print_more l'
  end.

Fixpoint parse_more (fuel : nat) (s : string) : option (list PlayerEntry * string) :=
  match fuel with
  | O => None
  | S fuel' =>
      match s with
      | String "]" s' => Some ([], s')
      | String "," s' =>
          '(e, s) ← parse_entry s';
          '(l, s) ← parse_more fuel' s;
          Some (e :: l, s)
      | _ => None
      end
  end%char.

Definition parse_entries (s : string) : option (list PlayerEntry * string) :=
  match s with
  | String "[" (String "]" s') => Some ([], s')
  | String "[" s' =>
      '(e, s) ← parse_entry s';
      '(l, s) ← parse_more (String.length s) s;
      Some (e :: l, s)
  | _ => None
  end%char.

Definition print_leaderboard (lb : LeaderboardResponse) : string :=
  "{" +:+ key "included" +:+ print_entries (Included lb) +:+ "}".

Definition parse_leaderboard (s : string) : option (LeaderboardResponse * string) :=
  s ← expect ("{" +:+ key "included") s;
  '(l, s) ← parse_entries s;
  s ← expect "}" s;
  Some ({| Included := l |}, s).

Definition print_season (sd : SeasonData) : string :=
  "{" +:+ key "id" +:+ print_string (SeasonID sd) +:+ "}".

Definition parse_season (s : string) : option (SeasonData * string) :=
  s ← expect ("{" +:+ key "id") s;
  '(id, s) ← parse_string s;
  s ← expect "}" s;
  Some ({| SeasonID := id |}, s).

(** A whole document: the record and nothing after it. *)
Definition whole {A : Type} (r : option (A * string)) : option A :=
  '(x, rest) ← r;
  if decide (rest = EmptyString) then Some x else None.

#[global] Instance json_attributes : Json PlayerAttribute :=
  {| Marshal a := Some (print_attributes a);
     Unmarshal s := whole (parse_attributes s) |}.

#[global] Instance json_leaderboard : Json LeaderboardResponse :=
  {| Marshal lb := Some (print_leaderboard lb);
     Unmarshal s := whole (parse_leaderboard s) |}.

#[global] Instance json_season : Json SeasonData :=
  {| Marshal sd := Some (print_season sd);
     Unmarshal s := whole (parse_season s) |}.

(** An encoding of the attributes that can fail, as a [MarshalJSON] method
    may: it refuses a negative count. It writes and reads the same text. *)
Definition checked_attributes : Json PlayerAttribute :=
  {| Marshal a :=
       if decide (0 ≤ GamesPlayed a ∧ 0 ≤ Wins a)%Z then Some (print_attributes a) else None;
     Unmarshal s := whole (parse_attributes s) |}.

(** *** The scenario of the design document *)

Definition p1 : PlayerEntry :=
  {| ID := "p1"; Attributes := {| Rank := 3; GamesPlayed := 50; Wins := 5 |} |}.
Definition p2 : PlayerEntry :=
  {| ID := "p2"; Attributes := {| Rank := 1; GamesPlayed := 80; Wins := 20 |} |}.
Definition scenario : LeaderboardResponse := {| Included := [p1; p2] |}.

End json_text.

(** ** Worlds to run the service and the handlers on *)

Module example.
Import service json_text.

Definition season : SeasonData := {| SeasonID := "division.bro.official.pc-2018-28" |}.

Definition no_blobs : BlobStore := {| objects := ∅; available := true |}.

Definition upstream : Upstream :=
  {| FetchCurrentSeason := Some season;
     FetchCurrentLeaderboard := λ _, Some scenario |}.

(** Nothing cached, nothing backed up. *)
Definition fresh : World :=
  {| cache := redis.empty; blobs := no_blobs; provider := upstream |}.

(** The season and the two-player snapshot cached. *)
Definition warm_cache : redis.Cluster :=
  store.run_calls [store.CallUpdateSeason Background season;
                   store.CallUpdateLeaderboard Background scenario] redis.empty.

Definition warm : World :=
  {| cache := warm_cache; blobs := no_blobs; provider := upstream |}.



(** Nine minutes and fifty-nine seconds. *)
Definition almost_ten_minutes : N := 599000000000.

Definition backup_name : string := "leaderboard_backup_20240501_120000.json".

(** A request whose caller has gone away. *)
Definition abandoned : api.gin_Context :=
  {| api.Request_Context := RequestContext true;
     api.Param_playerID := "p2";
     api.Query_file := EmptyString |}.

Definition timestamp : string := "20240501_120000".

Definition svc : LeaderboardService := spec_service.leaderboardService.

End example.

(** ** The constructor of the client *)

Module client.
Import redis.





End client.

(** ** The name of a backup file

    [handleBackupLeaderboard] names the file after
    [time.Now().Format("20060102_150405")]: the year on four digits, then
    month, day, an underscore, hour, minute and second on two digits each. *)

Module layout.

Record Time : Type := {
  Year : nat;
  Month : nat;
  Day : nat;
  Hour : nat;
  Minute : nat;
  Second : nat
}.

(** A wall-clock time as [time.Now()] gives it, with a year of at most four
    digits. *)
Definition wall_clock (t : Time) : Prop :=
  (Year t < 100 * 100 ∧ 1 ≤ Month t ≤ 12 ∧ 1 ≤ Day t ≤ 31 ∧
   Hour t < 24 ∧ Minute t < 60 ∧ Second t < 60)%nat.

Definition digit (n : nat) : ascii := ascii_of_nat (48 + n mod 10).

Definition pad2 (n : nat) : string :=
  String (digit (n / 10)) (String (digit n) EmptyString).

Definition pad4 (n : nat) : string :=
  String (digit (n / 1000)) (String (digit (n / 100)) (pad2 n)).

(** [t.Format("20060102_150405")] *)
Definition Format (t : Time) : string :=
  pad4 (Year t) +:+ pad2 (Month t) +:+ pad2 (Day t) +:+ "_"
    +:+ pad2 (Hour t) +:+ pad2 (Minute t) +:+ pad2 (Second t).

End layout.

(** ** Further notions on cache states *)

Module cache_state.
Import redis store.
Local Open Scope Z_scope.

(** The hash live under a key, empty when there is none. *)
Definition hash_at (db : Cluster) (k : string) : gmap string string :=
  match live db k with
  | Some (Entry (VHash h) _) => h
  | _ => ∅
  end.

(** The keys of the scheme. *)
Definition scheme_key (k : string) : Prop :=
  k = "leaderboard" ∨ k = "current_season" ∨ ∃ playerID, k = player_key playerID.

(** The time to live the store gives a key. *)
Definition ttl_of (k : string) : Z :=
  if decide (k = "current_season") then one_day else ten_minutes.

(** Only keys of the scheme, each with an expiry instant no further away
    than its time to live. *)
Definition bounded (rc : Cluster) : Prop :=
  ∀ k e, keyspace rc !! k = Some e →
    scheme_key k ∧ ∃ T, expire_at e = Some T ∧ T ≤ clock rc + ttl_of k.

End cache_state.

(** ** Further inputs to run the store and the handlers on *)

Module sample.
Import json_text.

(** The scenario's snapshot without [p2]. *)
Definition lone : LeaderboardResponse := {| Included := [p1] |}.

Definition one_minute : N := 60000000000.
Definition ten_minutes_sharp : N := 600000000000.
Definition almost_one_day : N := 86399000000000.
Definition one_day_sharp : N := 86400000000000.

(** The cache of the scenario, out of reach. *)
Definition unplugged : redis.Cluster := store.set_reachable false example.warm_cache.

(** Noon on the first of May 2024, and one second later. *)
Definition noon : layout.Time :=
  {| layout.Year := 2024; layout.Month := 5; layout.Day := 1;
     layout.Hour := 12; layout.Minute := 0; layout.Second := 0 |}.
Definition noon_and_a_second : layout.Time :=
  {| layout.Year := 2024; layout.Month := 5; layout.Day := 1;
     layout.Hour := 12; layout.Minute := 0; layout.Second := 1 |}.

End sample.

(** * Properties *)

Import redis store.
Local Open Scope Z_scope.

(** ** Keys and durations *)

Lemma player_key_inj (a b : string) : player_key a = player_key b → a = b.
Proof. unfold player_key. intros E. by injection E. Qed.

Lemma player_key_leaderboard (a : string) : player_key a ≠ "leaderboard".
Proof. done. Qed.

Lemma player_key_season (a : string) : player_key a ≠ "current_season".
Proof. done. Qed.

Lemma ten_minutes_pos : 0 < ten_minutes.
Proof. done. Qed.

Lemma ten_minutes_seconds : ten_minutes = 600 * time.Second.
Proof. reflexivity. Qed.

Lemma one_day_seconds : one_day = 86400 * time.Second.
Proof. reflexivity. Qed.

(** ** Snapshots *)

Lemma last_attributes_None (id : string) (l : list PlayerEntry) :
  id ∉ ID <$> l → last_attributes id l = None.
Proof.
  induction l as [|e l IH]; [done|].
  rewrite fmap_cons, not_elem_of_cons. intros [Hne Hl]. simpl.
  rewrite (IH Hl). by rewrite decide_False.
Qed.

Lemma last_attributes_is_Some (p : PlayerEntry) (l : list PlayerEntry) :
  p ∈ l → is_Some (last_attributes (ID p) l).
Proof.
  induction l as [|e l IH]; [by intros ?%elem_of_nil|].
  intros [->|Hin]%elem_of_cons; simpl.
  - destruct (last_attributes (ID e) l); [done|]. by rewrite decide_True.
  - destruct (IH Hin) as [a ->]. done.
Qed.

Lemma last_attributes_NoDup (p : PlayerEntry) (l : list PlayerEntry) :
  NoDup (ID <$> l) → p ∈ l → last_attributes (ID p) l = Some (Attributes p).
Proof.
  induction l as [|e l IH]; [by intros _ ?%elem_of_nil|].
  rewrite fmap_cons, NoDup_cons. intros [Hfresh Hnd] [->|Hin]%elem_of_cons; simpl.
  - rewrite (last_attributes_None _ _ Hfresh). by rewrite decide_True.
  - by rewrite (IH Hnd Hin).
Qed.

Lemma last_attributes_elem (id : string) (a : PlayerAttribute) (l : list PlayerEntry) :
  last_attributes id l = Some a → ∃ p, p ∈ l ∧ ID p = id ∧ Attributes p = a.
Proof.
  induction l as [|e l IH]; [done|]. simpl.
  destruct (last_attributes id l) as [a'|] eqn:E.
  - intros [= <-]. destruct (IH eq_refl) as (p & ? & ? & ?).
    exists p. by rewrite elem_of_cons; auto.
  - case_decide; [|done]. intros [= <-]. exists e. by rewrite elem_of_cons; auto.
Qed.

(** ** The backend, command by command *)

Lemma run_queue_cons_ok (c : Cmd) (q : list Cmd) (db db1 : Cluster) (r : Reply) :
  run c db = (inr r, db1) → run_queue (c :: q) db = run_queue q db1.
Proof. intros E. simpl. rewrite E. by destruct (run_queue q db1). Qed.

Lemma run_queue_cons_err (c : Cmd) (q : list Cmd) (db db1 : Cluster) (e : Error) :
  run c db = (inl e, db1) → (run_queue (c :: q) db).1 = Some e.
Proof. intros E. simpl. rewrite E. by destruct (run_queue q db1). Qed.

Lemma live_with_keyspace_insert (db : Cluster) (k : string) (e : entry) :
  expired (clock db) e = false →
  live (with_keyspace db (<[k := e]> (keyspace db))) k = Some e.
Proof. intros E. unfold live. simpl. rewrite lookup_insert_eq. by rewrite E. Qed.

Lemma live_Some_keyspace (db : Cluster) (k : string) (e : entry) :
  live db k = Some e → keyspace db !! k = Some e ∧ expired (clock db) e = false.
Proof.
  unfold live. destruct (keyspace db !! k) as [e'|]; [|done].
  destruct (expired (clock db) e') eqn:E; [done|]. by intros [= <-].
Qed.

Lemma live_None_keyspace (db : Cluster) (k : string) :
  keyspace db !! k = None → live db k = None.
Proof. unfold live. by intros ->. Qed.

Lemma run_HSET_EXPIRE (db : Cluster) (k js : string) (q : list Cmd) :
  ¬ holds_string db k →
  run_queue (HSET k "stats" js :: EXPIRE k ten_minutes :: q) db
  = run_queue q (with_keyspace db (<[k := stats_entry db k js]> (keyspace db))).
Proof.
  intros Hk. unfold stats_entry.
  destruct (live db k) as [[[s|h] t]|] eqn:E.
  - destruct Hk. by exists s, t.
  - assert (expired (clock db) (Entry (VHash (<["stats":=js]> h)) t) = false) as Hexp.
    { by apply live_Some_keyspace in E as [_ E]. }
    erewrite run_queue_cons_ok; last by (simpl; rewrite E).
    erewrite run_queue_cons_ok; last first.
    { simpl. by rewrite (live_with_keyspace_insert _ _ _ Hexp). }
    unfold with_keyspace. simpl. by rewrite insert_insert_eq.
  - erewrite run_queue_cons_ok; last by (simpl; rewrite E).
    erewrite run_queue_cons_ok; last first.
    { simpl. by rewrite live_with_keyspace_insert. }
    unfold with_keyspace. simpl. by rewrite insert_insert_eq, insert_empty.
Qed.

Lemma run_HSET_string (db : Cluster) (k f v : string) (q : list Cmd) :
  holds_string db k → (run_queue (HSET k f v :: q) db).1 = Some WrongType.
Proof. intros (s & t & E). eapply run_queue_cons_err. simpl. by rewrite E. Qed.

Lemma stats_entry_field (db : Cluster) (k js : string) :
  ∃ h, stats_entry db k js = Entry (VHash h) (Some (clock db + ten_minutes))
       ∧ h !! "stats" = Some js.
Proof. eexists. split; [reflexivity|]. apply lookup_insert_eq. Qed.

(** Reads do not write. *)
Lemma call_GET_frame (ctx : Context) (k : string) (db : Cluster) :
  (call ctx (GET k) db).2 = db.
Proof. unfold call. simpl. by repeat case_match. Qed.

Lemma call_HGET_frame (ctx : Context) (k f : string) (db : Cluster) :
  (call ctx (HGET k f) db).2 = db.
Proof. unfold call. simpl. by repeat case_match. Qed.

(** A refused call changes nothing. *)
Lemma Exec_refused (ctx : Context) (pipe : list Cmd) (db : Cluster) (e : Error) :
  refused ctx db = Some e → Exec ctx pipe db = (Some e, db).
Proof. unfold Exec. by intros ->. Qed.

(** ** [UpdateLeaderboard] *)

Section UpdateFacts.
Context `{JL : Json LeaderboardResponse, JA : Json PlayerAttribute, JS : Json SeasonData}.

(** The loop adds exactly the players' commands behind what is queued, or
    stops at the first player that does not serialize. *)
Lemma queue_players_spec (players : list PlayerEntry) (pipe : list Cmd) :
  queue_players players pipe
  = match player_queue players with
    | Some q => inr (pipe ++ q)
    | None => inl (Errorf "redisclient - error marshaling player stats" MarshalFailure)
    end.
Proof.
  revert pipe. induction players as [|p players IH]; intros pipe; simpl.
  - by rewrite app_nil_r.
  - destruct (Marshal (Attributes p)) as [js|]; simpl; [|done].
    rewrite IH. destruct (player_queue players); simpl; [|done].
    by rewrite <- !app_assoc.
Qed.


(** [UpdateLeaderboard] is one [Exec] of the transaction, or no call at all. *)
Lemma UpdateLeaderboard_spec (ctx : Context) (lb : LeaderboardResponse) (rc : Cluster) :
  UpdateLeaderboard ctx lb rc
  = match Marshal lb with
    | None =>
        (Some (Errorf "redisclient - error marshaling entire leaderboard data" MarshalFailure), rc)
    | Some js =>
        match player_queue (Included lb) with
        | None => (Some (Errorf "redisclient - error marshaling player stats" MarshalFailure), rc)
        | Some q => report (Exec ctx (SET "leaderboard" js ten_minutes :: q) rc)
        end
    end.
Proof.
  unfold UpdateLeaderboard. destruct (Marshal lb) as [js|]; [|done].
  rewrite queue_players_spec. destruct (player_queue (Included lb)) as [q|]; [|done].
  simpl. unfold report. by destruct (Exec _ _ rc) as [[e|] rc'].
Qed.

(** What a queue of player commands that ran without error has done. *)
Lemma run_player_queue_inv (players : list PlayerEntry) :
  ∀ (q : list Cmd) (db db' : Cluster),
    player_queue players = Some q →
    run_queue q db = (None, db') →
    clock db' = clock db ∧ reachable db' = reachable db ∧
    (∀ k, (∀ id, k = player_key id → last_attributes id players = None) →
          keyspace db' !! k = keyspace db !! k) ∧
    (∀ id a, last_attributes id players = Some a →
       ∃ h js, Marshal a = Some js ∧
         keyspace db' !! player_key id
           = Some (Entry (VHash h) (Some (clock db + ten_minutes))) ∧
         h !! "stats" = Some js).
Proof.
  induction players as [|p players IH]; intros q db db' Hq Hrun; simpl in Hq.
  - injection Hq as <-. simpl in Hrun. injection Hrun as <-. by repeat split.
  - destruct (Marshal (Attributes p)) as [js|] eqn:Ejs; simpl in Hq; [|done].
    destruct (player_queue players) as [q'|] eqn:Eq'; simpl in Hq; [|done].
    injection Hq as <-.
    assert (¬ holds_string db (player_key (ID p))) as Hk.
    { intros Hs. eapply run_HSET_string in Hs. rewrite Hrun in Hs. done. }
    rewrite (run_HSET_EXPIRE _ _ _ _ Hk) in Hrun.
    destruct (IH _ _ _ eq_refl Hrun) as (Hclock & Hreach & Hframe & Hkeys).
    simpl in Hclock, Hreach, Hframe, Hkeys.
    split_and!; [done|done|..].
    + intros k Hnone. rewrite Hframe.
      * rewrite lookup_insert_ne; [done|]. intros <-.
        specialize (Hnone (ID p) eq_refl). simpl in Hnone.
        destruct (last_attributes (ID p) players); [done|].
        by rewrite decide_True in Hnone.
      * intros id ->. specialize (Hnone id eq_refl). simpl in Hnone.
        by destruct (last_attributes id players).
    + intros id a Ha. simpl in Ha.
      destruct (last_attributes id players) as [a'|] eqn:Ea'.
      * injection Ha as <-. by apply Hkeys.
      * case_decide as Hid; [|done]. injection Ha as <-. subst id.
        rewrite Hframe.
        -- rewrite lookup_insert_eq.
           destruct (stats_entry_field db (player_key (ID p)) js) as (h & -> & Hh).
           by exists h, js.
        -- by intros id <-%player_key_inj.
Qed.

(** The same queue cannot fail on a state that keeps strings away from the
    players' keys. *)
Lemma run_player_queue_total (players : list PlayerEntry) :
  ∀ (q : list Cmd) (db : Cluster),
    player_queue players = Some q →
    (∀ p, p ∈ players → ¬ holds_string db (player_key (ID p))) →
    ∃ db', run_queue q db = (None, db').
Proof.
  induction players as [|p players IH]; intros q db Hq Hfree; simpl in Hq.
  - injection Hq as <-. by exists db.
  - destruct (Marshal (Attributes p)) as [js|] eqn:Ejs; simpl in Hq; [|done].
    destruct (player_queue players) as [q'|] eqn:Eq'; simpl in Hq; [|done].
    injection Hq as <-.
    rewrite run_HSET_EXPIRE by (apply Hfree; by rewrite elem_of_cons; auto).
    apply IH; [done|].
    intros p' Hin (s & t & Hlive). apply live_Some_keyspace in Hlive as [Hlive Hexp].
    simpl in Hlive, Hexp.
    destruct (decide (player_key (ID p) = player_key (ID p'))) as [Heq|Hne].
    + rewrite <- Heq, lookup_insert_eq in Hlive.
      destruct (stats_entry_field db (player_key (ID p)) js) as (h & E & _).
      rewrite E in Hlive. done.
    + rewrite lookup_insert_ne in Hlive by done.
      apply (Hfree p'); [by rewrite elem_of_cons; auto|].
      exists s, t. unfold live. rewrite Hlive. by rewrite Hexp.
Qed.

(** A successful [UpdateLeaderboard], key by key. *)
Lemma UpdateLeaderboard_ok (ctx : Context) (lb : LeaderboardResponse) (rc rc' : Cluster) :
  UpdateLeaderboard ctx lb rc = (None, rc') →
  refused ctx rc = None ∧ clock rc' = clock rc ∧ reachable rc' = reachable rc ∧
  (∃ js, Marshal lb = Some js ∧
     keyspace rc' !! "leaderboard"
       = Some (Entry (VString js) (Some (clock rc + ten_minutes)))) ∧
  (∀ id a, last_attributes id (Included lb) = Some a →
     ∃ h js, Marshal a = Some js ∧
       keyspace rc' !! player_key id
         = Some (Entry (VHash h) (Some (clock rc + ten_minutes))) ∧
       h !! "stats" = Some js) ∧
  (∀ k, k ≠ "leaderboard" →
        (∀ id, k = player_key id → last_attributes id (Included lb) = None) →
        keyspace rc' !! k = keyspace rc !! k).
Proof.
  rewrite UpdateLeaderboard_spec.
  destruct (Marshal lb) as [js|] eqn:Ejs; [|done].
  destruct (player_queue (Included lb)) as [q|] eqn:Eq; [|done].
  unfold report, Exec. destruct (refused ctx rc) as [e|] eqn:Eref; [done|].
  erewrite run_queue_cons_ok by reflexivity.
  destruct (run_queue q _) as [[e|] rc1] eqn:Erun; [done|]. simpl. intros [= <-].
  destruct (run_player_queue_inv _ _ _ _ Eq Erun) as (Hclock & Hreach & Hframe & Hkeys).
  simpl in Hclock, Hreach, Hframe, Hkeys.
  split_and!; [done|done|done|..].
  - exists js. split; [done|]. rewrite Hframe.
    + rewrite lookup_insert_eq. unfold deadline.
      by rewrite bool_decide_eq_true_2 by apply ten_minutes_pos.
    + by intros id Hid.
  - done.
  - intros k Hk Hnone. rewrite (Hframe k Hnone). by rewrite lookup_insert_ne.
Qed.

End UpdateFacts.

(** ** The reads *)

Section ReadFacts.
Context `{JL : Json LeaderboardResponse, JA : Json PlayerAttribute, JS : Json SeasonData}.

Lemma GetLeaderboard_frame (ctx : Context) (rc : Cluster) :
  (GetLeaderboard ctx rc).2 = rc.
Proof.
  unfold GetLeaderboard. pose proof (call_GET_frame ctx "leaderboard" rc) as E.
  destruct (call ctx (GET "leaderboard") rc) as [r rc']. simpl in E. subst rc'.
  by repeat case_match.
Qed.

Lemma GetPlayerStats_frame (ctx : Context) (playerID : string) (rc : Cluster) :
  (GetPlayerStats ctx playerID rc).2 = rc.
Proof.
  unfold GetPlayerStats.
  pose proof (call_HGET_frame ctx (player_key playerID) "stats" rc) as E.
  destruct (call ctx (HGET (player_key playerID) "stats") rc) as [r rc'].
  simpl in E. subst rc'. by repeat case_match.
Qed.

Lemma GetSeason_frame (ctx : Context) (rc : Cluster) :
  (GetSeason ctx rc).2 = rc.
Proof.
  unfold GetSeason. pose proof (call_GET_frame ctx "current_season" rc) as E.
  destruct (call ctx (GET "current_season") rc) as [r rc']. simpl in E. subst rc'.
  by repeat case_match.
Qed.

Lemma Ping_frame (ctx : Context) (rc : Cluster) : (Ping ctx rc).2 = rc.
Proof. unfold Ping, call. by destruct (refused ctx rc). Qed.

(** The outcome of each read, from what is live under its key. *)
Lemma GetLeaderboard_result (ctx : Context) (rc : Cluster) :
  refused ctx rc = None →
  (GetLeaderboard ctx rc).1
  = match live rc "leaderboard" with
    | None => Err ErrCacheMiss
    | Some (Entry (VHash _) _) => Err (RedisError WrongType)
    | Some (Entry (VString data) _) =>
        match Unmarshal data with
        | Some leaderboard => Ok leaderboard
        | None =>
            Err (Errorf "redisclient - error unmarshalling leaderboard data" UnmarshalFailure)
        end
    end.
Proof.
  intros Href. unfold GetLeaderboard, call. rewrite Href. simpl.
  destruct (live rc "leaderboard") as [[[data|h] t]|]; simpl; [|done|done].
  by destruct (Unmarshal data).
Qed.

Lemma GetSeason_result (ctx : Context) (rc : Cluster) :
  refused ctx rc = None →
  (GetSeason ctx rc).1
  = match live rc "current_season" with
    | None => Err ErrCacheMiss
    | Some (Entry (VHash _) _) => Err (RedisError WrongType)
    | Some (Entry (VString data) _) =>
        match Unmarshal data with
        | Some season => Ok season
        | None => Err (Errorf "redisclient - error unmarshalling season data" UnmarshalFailure)
        end
    end.
Proof.
  intros Href. unfold GetSeason, call. rewrite Href. simpl.
  destruct (live rc "current_season") as [[[data|h] t]|]; simpl; [|done|done].
  by destruct (Unmarshal data).
Qed.

Lemma GetPlayerStats_result (ctx : Context) (playerID : string) (rc : Cluster) :
  refused ctx rc = None →
  (GetPlayerStats ctx playerID rc).1
  = match live rc (player_key playerID) with
    | None => Err ErrCacheMiss
    | Some (Entry (VString _) _) => Err (RedisError WrongType)
    | Some (Entry (VHash h) _) =>
        match h !! "stats" with
        | None => Err ErrCacheMiss
        | Some data =>
            match Unmarshal data with
            | Some playerStats => Ok playerStats
            | None =>
                Err (Errorf "redisclient - error unmarshalling player stats" UnmarshalFailure)
            end
        end
    end.
Proof.
  intros Href. unfold GetPlayerStats, call. rewrite Href. simpl.
  destruct (live rc (player_key playerID)) as [[[data|h] t]|]; simpl; [done| |done].
  destruct (h !! "stats") as [data|]; simpl; [|done].
  by destruct (Unmarshal data).
Qed.



End ReadFacts.

(** ** The invariant of the cache *)

Section Invariant.
Context `{JL : Json LeaderboardResponse, JA : Json PlayerAttribute, JS : Json SeasonData}.

Lemma scheme_no_string (rc : Cluster) (id : string) :
  follows_scheme rc → ¬ holds_string rc (player_key id).
Proof.
  intros (_ & _ & Hp) (s & t & [Hl _]%live_Some_keyspace).
  destruct (Hp _ _ Hl) as (h & Hv & _). done.
Qed.

(** On a state that follows the scheme, [UpdateLeaderboard] either leaves
    the cache as it was or goes through. *)
Lemma UpdateLeaderboard_cases (ctx : Context) (lb : LeaderboardResponse) (rc : Cluster) :
  follows_scheme rc →
  (UpdateLeaderboard ctx lb rc).2 = rc ∨ ∃ rc', UpdateLeaderboard ctx lb rc = (None, rc').
Proof.
  intros Hs. rewrite UpdateLeaderboard_spec.
  destruct (Marshal lb) as [js|]; [|by left].
  destruct (player_queue (Included lb)) as [q|] eqn:Eq; [|by left].
  unfold report, Exec. destruct (refused ctx rc) as [e|]; [by left|].
  right. erewrite run_queue_cons_ok by reflexivity.
  edestruct (run_player_queue_total (Included lb) q) as [db' ->]; [done| |by eexists].
  intros p _ (s & t & [Hl _]%live_Some_keyspace). simpl in Hl.
  rewrite lookup_insert_ne in Hl by done.
  destruct Hs as (_ & _ & Hp). destruct (Hp _ _ Hl) as (h & Hv & _). done.
Qed.

Lemma UpdateSeason_cases (ctx : Context) (season : SeasonData) (rc : Cluster) :
  (UpdateSeason ctx season rc).2 = rc ∨
  ∃ data, Marshal season = Some data ∧
    UpdateSeason ctx season rc
    = (None, with_keyspace rc
               (<["current_season" := Entry (VString data) (Some (clock rc + one_day))]>
                  (keyspace rc))).
Proof.
  unfold UpdateSeason. destruct (Marshal season) as [data|]; [|by left].
  unfold call. destruct (refused ctx rc) as [e|]; [by left|].
  right. by exists data.
Qed.

Lemma invariant_empty : follows_scheme redis.empty ∧ coherent redis.empty.
Proof. unfold follows_scheme, coherent. simpl. by split_and!; intros *; rewrite lookup_empty. Qed.

Lemma invariant_keyspace (rc rc' : Cluster) :
  keyspace rc' = keyspace rc →
  follows_scheme rc ∧ coherent rc → follows_scheme rc' ∧ coherent rc'.
Proof. unfold follows_scheme, coherent. by intros ->. Qed.

Lemma invariant_UpdateLeaderboard (ctx : Context) (lb : LeaderboardResponse) (rc : Cluster) :
  follows_scheme rc ∧ coherent rc →
  follows_scheme (UpdateLeaderboard ctx lb rc).2 ∧ coherent (UpdateLeaderboard ctx lb rc).2.
Proof.
  intros [Hs Hc].
  destruct (UpdateLeaderboard_cases ctx lb rc Hs) as [->|[rc' E]]; [done|].
  rewrite E. simpl.
  destruct (UpdateLeaderboard_ok _ _ _ _ E)
    as (_ & _ & _ & (js & Hjs & Hlb) & Hplayers & Hframe).
  destruct Hs as (Hs1 & Hs2 & Hs3).
  split; [split_and!|].
  - intros e. rewrite Hlb. intros [= <-]. by eexists.
  - intros e. rewrite Hframe; [apply Hs2|done|]. by intros id Hid.
  - intros id e He.
    destruct (last_attributes id (Included lb)) as [a|] eqn:Ea.
    + destruct (Hplayers _ _ Ea) as (h & js' & _ & Hk & Hh).
      rewrite Hk in He. injection He as <-. exists h. by rewrite Hh.
    + rewrite Hframe in He; [by eapply Hs3|done|].
      by intros id' <-%player_key_inj.
  - intros e. rewrite Hlb. intros [= <-]. by exists lb, js, (clock rc + ten_minutes).
Qed.

Lemma invariant_UpdateSeason (ctx : Context) (season : SeasonData) (rc : Cluster) :
  follows_scheme rc ∧ coherent rc →
  follows_scheme (UpdateSeason ctx season rc).2 ∧ coherent (UpdateSeason ctx season rc).2.
Proof.
  intros [Hs Hc].
  destruct (UpdateSeason_cases ctx season rc) as [->|(data & _ & ->)]; [done|].
  simpl. destruct Hs as (Hs1 & Hs2 & Hs3). split; [split_and!|].
  - intros e. simpl. rewrite lookup_insert_ne by done. apply Hs1.
  - intros e. simpl. rewrite lookup_insert_eq. intros [= <-]. by eexists.
  - intros id e. simpl. rewrite lookup_insert_ne by done. apply Hs3.
  - intros e. simpl. rewrite lookup_insert_ne by done. intros He.
    destruct (Hc e He) as (lb & js & T & -> & Hjs & Hplayers).
    exists lb, js, T. split_and!; [done|done|].
    intros id a Ha. destruct (Hplayers id a Ha) as (h & js' & ? & ? & ?).
    exists h, js'. by rewrite lookup_insert_ne.
Qed.

Lemma invariant_step (rc : Cluster) (c : Call) :
  follows_scheme rc ∧ coherent rc → follows_scheme (step rc c) ∧ coherent (step rc c).
Proof.
  intros Hinv. destruct c; simpl.
  - by rewrite Ping_frame.
  - by rewrite GetLeaderboard_frame.
  - by apply invariant_UpdateLeaderboard.
  - by rewrite GetPlayerStats_frame.
  - by rewrite GetSeason_frame.
  - by apply invariant_UpdateSeason.
  - by eapply invariant_keyspace.
  - by eapply invariant_keyspace.
Qed.



End Invariant.

(** ** The JSON text encoding is lossless *)

Import json_text.

Lemma append_String (c : ascii) (a b : string) : String c a +:+ b = String c (a +:+ b).
Proof. reflexivity. Qed.

Lemma append_assoc (a b c : string) : (a +:+ b) +:+ c = a +:+ b +:+ c.
Proof. induction a as [|x a IH]; [done|]. by rewrite !append_String, IH. Qed.

Lemma append_nil_r (a : string) : a +:+ EmptyString = a.
Proof. induction a as [|x a IH]; [done|]. by rewrite append_String, IH. Qed.

Lemma length_append (a b : string) :
  String.length (a +:+ b) = (String.length a + String.length b)%nat.
Proof. induction a as [|x a IH]; [done|]. rewrite append_String. simpl. by rewrite IH. Qed.

Lemma expect_append (lit s : string) : expect lit (lit +:+ s) = Some s.
Proof.
  induction lit as [|c lit IH]; [done|].
  rewrite append_String. simpl. by rewrite decide_True.
Qed.

Lemma expect_append2 (a b s : string) : expect (a +:+ b) (a +:+ b +:+ s) = Some s.
Proof. rewrite <- append_assoc. apply expect_append. Qed.

Lemma number_prefix_stop (s : string) : stops_number s → number_prefix s = (EmptyString, s).
Proof. destruct s as [|c s]; [done|]. simpl. by intros ->. Qed.

Lemma number_prefix_uint (u : Decimal.uint) (rest : string) :
  stops_number rest →
  number_prefix (NilEmpty.string_of_uint u +:+ rest) = (NilEmpty.string_of_uint u, rest).
Proof.
  intros Hstop. induction u; simpl NilEmpty.string_of_uint;
    rewrite ?append_String; simpl; rewrite ?IHu; try done.
  by apply number_prefix_stop.
Qed.

Lemma NilZero_uint (u : Decimal.uint) :
  u ≠ Decimal.Nil → NilZero.string_of_uint u = NilEmpty.string_of_uint u.
Proof. by destruct u. Qed.

Lemma to_int_uint (z : Z) :
  ∃ u, u ≠ Decimal.Nil ∧ (Z.to_int z = Decimal.Pos u ∨ Z.to_int z = Decimal.Neg u).
Proof.
  destruct z as [|p|p]; simpl.
  - exists Decimal.zero. split; [done|by left].
  - exists (Pos.to_uint p). split; [apply Unsigned.to_uint_nonnil|by left].
  - exists (Pos.to_uint p). split; [apply Unsigned.to_uint_nonnil|by right].
Qed.

Lemma parse_int_print (z : Z) (rest : string) :
  stops_number rest → parse_int (print_int z +:+ rest) = Some (z, rest).
Proof.
  intros Hstop. unfold parse_int.
  assert (number_prefix (print_int z +:+ rest) = (print_int z, rest)) as ->.
  { unfold print_int. destruct (to_int_uint z) as (u & Hu & [->| ->]); simpl.
    - rewrite (NilZero_uint _ Hu). by apply number_prefix_uint.
    - rewrite (NilZero_uint _ Hu).
      by rewrite number_prefix_uint. }
  unfold print_int. rewrite NilZero.isi.
  - simpl. by rewrite DecimalZ.of_to.
  - destruct (to_int_uint z) as (u & Hu & [->| ->]); congruence.
  - destruct (to_int_uint z) as (u & Hu & [->| ->]); congruence.
Qed.

Lemma unescape_escape (s rest : string) :
  unescape (escape s +:+ String quote rest) = Some (s, rest).
Proof.
  induction s as [|c s IH]; simpl; [done|].
  destruct (decide (c = quote ∨ c = backslash)) as [Hc|Hc]; simpl.
  - rewrite decide_True by done. by rewrite IH.
  - rewrite decide_False by tauto. rewrite decide_False by tauto. by rewrite IH.
Qed.

Lemma parse_string_print (s rest : string) :
  parse_string (print_string s +:+ rest) = Some (s, rest).
Proof.
  unfold print_string, parse_string. rewrite append_String, append_assoc.
  rewrite decide_True by done. rewrite append_String. apply unescape_escape.
Qed.

Ltac parsed lem := rewrite lem by done; cbv beta iota.

Lemma parse_attributes_print (a : PlayerAttribute) (rest : string) :
  parse_attributes (print_attributes a +:+ rest) = Some (a, rest).
Proof.
  destruct a as [r g w]. unfold parse_attributes, print_attributes, mbind, option_bind.
  cbv [Rank GamesPlayed Wins]. rewrite !append_assoc.
  parsed expect_append2. parsed parse_int_print.
  parsed expect_append2. parsed parse_int_print.
  parsed expect_append2. parsed parse_int_print.
  by parsed expect_append.
Qed.

Lemma parse_entry_print (e : PlayerEntry) (rest : string) :
  parse_entry (print_entry e +:+ rest) = Some (e, rest).
Proof.
  destruct e as [id a]. unfold parse_entry, print_entry, mbind, option_bind.
  cbv [ID Attributes]. rewrite !append_assoc.
  parsed expect_append2. parsed parse_string_print.
  parsed expect_append2. parsed parse_attributes_print.
  by parsed expect_append.
Qed.

Lemma parse_more_comma (fuel : nat) (s : string) :
  parse_more (S fuel) ("," +:+ s)
  = match parse_entry s with
    | Some (e, s) =>
        match parse_more fuel s with
        | Some (l, s) => Some (e :: l, s)
        | None => None
        end
    | None => None
    end.
Proof. reflexivity. Qed.

Lemma parse_more_print (l : list PlayerEntry) :
  ∀ (fuel : nat) (rest : string),
    (length l < fuel)%nat → parse_more fuel (print_more l +:+ rest) = Some (l, rest).
Proof.
  induction l as [|e l IH]; intros fuel rest Hfuel;
    (destruct fuel as [|fuel]; [simpl in Hfuel; lia|]); [done|].
  change (print_more (e :: l)) with ("," +:+ print_entry e +:+ print_more l).
  rewrite !append_assoc, parse_more_comma, parse_entry_print.
  rewrite IH by (simpl in Hfuel; lia). done.
Qed.

Lemma print_more_length (l : list PlayerEntry) (rest : string) :
  (length l < String.length (print_more l +:+ rest))%nat.
Proof.
  induction l as [|e l IH]; [simpl; lia|].
  change (print_more (e :: l)) with ("," +:+ print_entry e +:+ print_more l).
  rewrite length_append in IH. rewrite !append_assoc, !length_append. simpl. lia.
Qed.

Lemma parse_entries_bracket (e : PlayerEntry) (s : string) :
  parse_entries ("[" +:+ print_entry e +:+ s)
  = match parse_entry (print_entry e +:+ s) with
    | Some (e, s) =>
        match parse_more (String.length s) s with
        | Some (l, s) => Some (e :: l, s)
        | None => None
        end
    | None => None
    end.
Proof. reflexivity. Qed.

Lemma parse_entries_print (l : list PlayerEntry) (rest : string) :
  parse_entries (print_entries l +:+ rest) = Some (l, rest).
Proof.
  destruct l as [|e l]; [done|].
  unfold print_entries. rewrite !append_assoc, parse_entries_bracket, parse_entry_print.
  by rewrite parse_more_print by apply print_more_length.
Qed.

Lemma parse_leaderboard_print (lb : LeaderboardResponse) (rest : string) :
  parse_leaderboard (print_leaderboard lb +:+ rest) = Some (lb, rest).
Proof.
  destruct lb as [l]. unfold parse_leaderboard, print_leaderboard, mbind, option_bind.
  cbv [Included]. rewrite !append_assoc.
  parsed expect_append2. parsed parse_entries_print.
  by parsed expect_append.
Qed.

Lemma parse_season_print (sd : SeasonData) (rest : string) :
  parse_season (print_season sd +:+ rest) = Some (sd, rest).
Proof.
  destruct sd as [id]. unfold parse_season, print_season, mbind, option_bind.
  cbv [SeasonID]. rewrite !append_assoc.
  parsed expect_append2. parsed parse_string_print.
  by parsed expect_append.
Qed.

Lemma whole_print {A : Type} (parse : string → option (A * string)) (text : string) (x : A) :
  (∀ rest, parse (text +:+ rest) = Some (x, rest)) → whole (parse text) = Some x.
Proof.
  intros Hp. specialize (Hp EmptyString). rewrite append_nil_r in Hp.
  unfold whole. by rewrite Hp.
Qed.

Lemma checked_attributes_lossless : @Lossless PlayerAttribute checked_attributes.
Proof.
  intros a data. simpl. case_decide; [|done].
  intros [= <-]. apply whole_print, parse_attributes_print.
Qed.

#[global] Instance json_attributes_lossless : Lossless PlayerAttribute.
Proof. intros a data [= <-]. apply whole_print, parse_attributes_print. Qed.

#[global] Instance json_leaderboard_lossless : Lossless LeaderboardResponse.
Proof. intros a data [= <-]. apply whole_print, parse_leaderboard_print. Qed.

#[global] Instance json_season_lossless : Lossless SeasonData.
Proof. intros a data [= <-]. apply whole_print, parse_season_print. Qed.

(** ** The cache store: what the design document states *)

Section StoreClaims.
Context `{JL : Json LeaderboardResponse, JA : Json PlayerAttribute, JS : Json SeasonData}.

Lemma refused_None (ctx : Context) (rc : Cluster) :
  refused ctx rc = None ↔ ctx_done ctx = false ∧ reachable rc = true.
Proof. unfold refused. destruct (ctx_done ctx), (reachable rc); intuition congruence. Qed.

(** The players' part of the transaction: nothing but the [stats] field and
    the ten-minute expiry of each player's hash. *)
Lemma player_queue_shape (players : list PlayerEntry) :
  ∀ q, player_queue players = Some q →
    (∀ c, c ∈ q →
       (∀ t, expiration_of c = Some t → t = ten_minutes) ∧
       ∃ p, p ∈ players ∧ written_key c = Some (player_key (ID p))) ∧
    (∀ p, p ∈ players →
       ∃ js, Marshal (Attributes p) = Some js ∧
         HSET (player_key (ID p)) "stats" js ∈ q ∧
         EXPIRE (player_key (ID p)) ten_minutes ∈ q).
Proof.
  induction players as [|p players IH]; intros q Hq; simpl in Hq.
  - injection Hq as <-. split; [by intros c ?%elem_of_nil|by intros p ?%elem_of_nil].
  - destruct (Marshal (Attributes p)) as [js|] eqn:Ejs; simpl in Hq; [|done].
    destruct (player_queue players) as [q'|]; simpl in Hq; [|done].
    injection Hq as <-. destruct (IH q' eq_refl) as [IH1 IH2]. split.
    + intros c. rewrite !elem_of_cons. intros [->|[->|Hc]].
      * split; [done|]. exists p. by rewrite elem_of_cons; auto.
      * split; [by intros t [= <-]|]. exists p. by rewrite elem_of_cons; auto.
      * destruct (IH1 c Hc) as [Ht (p' & Hp' & Hk)]. split; [done|].
        exists p'. by rewrite elem_of_cons; auto.
    + intros p'. rewrite elem_of_cons. intros [->|Hp'].
      * exists js. rewrite !elem_of_cons. auto.
      * destruct (IH2 p' Hp') as (js' & ? & ? & ?). exists js'.
        rewrite !elem_of_cons. auto.
Qed.


(** A cancelled context or an unreachable cluster: the transaction is not
    executed, the cache is as before, and the failure is reported as a
    backend write error. *)
Lemma UpdateLeaderboard_refused
    (ctx : Context) (lb : LeaderboardResponse) (rc : Cluster) (e : Error) (tx : list Cmd) :
  refused ctx rc = Some e → transaction lb = Some tx →
  ∃ err, BackendWriteError err ∧ UpdateLeaderboard ctx lb rc = (Some err, rc).
Proof.
  intros Href Htx. rewrite UpdateLeaderboard_spec. unfold transaction in Htx.
  destruct (Marshal lb); [|done]. destruct (player_queue (Included lb)); [|done].
  rewrite (Exec_refused _ _ _ _ Href). eexists. split; [|done]. by eexists _, _.
Qed.

Lemma UpdateSeason_ok (ctx : Context) (season : SeasonData) (rc rc' : Cluster) :
  UpdateSeason ctx season rc = (None, rc') →
  ∃ data, Marshal season = Some data ∧
    rc' = with_keyspace rc
            (<["current_season" := Entry (VString data) (Some (clock rc + one_day))]>
               (keyspace rc)).
Proof.
  unfold UpdateSeason. destruct (Marshal season) as [data|]; [|done].
  unfold call. destruct (refused ctx rc); [done|]. simpl. intros [= <-]. by exists data.
Qed.

Lemma not_a_player_key (k : string) (l : list PlayerEntry) :
  (∀ p, p ∈ l → k ≠ player_key (ID p)) →
  ∀ id, k = player_key id → last_attributes id l = None.
Proof.
  intros Hk id ->. apply last_attributes_None.
  intros (p & -> & Hp)%list_elem_of_fmap. by apply (Hk p).
Qed.

(** C5. The key scheme and its expiry: after [UpdateLeaderboard] the
    snapshot is under [leaderboard] for ten minutes and each player's
    attributes are in the field [stats] of the hash under
    [player_stats:<playerID>] for ten minutes, no other key being written;
    after [UpdateSeason] the season is under [current_season] for
    twenty-four hours. *)
Theorem key_scheme_and_ttl :
  (∀ (ctx : Context) (lb : LeaderboardResponse) (rc rc' : Cluster),
     UpdateLeaderboard ctx lb rc = (None, rc') →
     (∃ js, Marshal lb = Some js ∧
        keyspace rc' !! "leaderboard"
          = Some (Entry (VString js) (Some (clock rc + 10 * time.Minute)))) ∧
     (∀ p, p ∈ Included lb →
        ∃ h a js, last_attributes (ID p) (Included lb) = Some a ∧ Marshal a = Some js ∧
          keyspace rc' !! ("player_stats:" +:+ ID p)
            = Some (Entry (VHash h) (Some (clock rc + 10 * time.Minute))) ∧
          h !! "stats" = Some js) ∧
     (∀ k, k ≠ "leaderboard" → (∀ p, p ∈ Included lb → k ≠ "player_stats:" +:+ ID p) →
           keyspace rc' !! k = keyspace rc !! k)) ∧
  (∀ (ctx : Context) (season : SeasonData) (rc rc' : Cluster),
     UpdateSeason ctx season rc = (None, rc') →
     (∃ data, Marshal season = Some data ∧
        keyspace rc' !! "current_season"
          = Some (Entry (VString data) (Some (clock rc + 24 * time.Hour)))) ∧
     (∀ k, k ≠ "current_season" → keyspace rc' !! k = keyspace rc !! k)).
Proof.
  split.
  - intros ctx lb rc rc' Hok.
    destruct (UpdateLeaderboard_ok _ _ _ _ Hok) as (_ & _ & _ & Hlb & Hplayers & Hframe).
    split_and!; [done|..].
    + intros p Hp. destruct (last_attributes_is_Some p _ Hp) as [a Ha].
      destruct (Hplayers _ _ Ha) as (h & js & ? & ? & ?). by exists h, a, js.
    + intros k Hk Hnot. apply Hframe; [done|]. by apply not_a_player_key.
  - intros ctx season rc rc' Hok.
    destruct (UpdateSeason_ok _ _ _ _ Hok) as (data & Hdata & ->). split.
    + exists data. split; [done|]. simpl. by rewrite lookup_insert_eq.
    + intros k Hk. simpl. by rewrite lookup_insert_ne.
Qed.

(** C10. The reads never modify the cache: whatever [GetLeaderboard],
    [GetPlayerStats] and [GetSeason] return, the backend — keys, values,
    expiry instants, clock — is the one they were called on. *)
Theorem reads_leave_cache_unchanged (ctx : Context) (playerID : string) (rc : Cluster) :
  (GetLeaderboard ctx rc).2 = rc ∧
  (GetPlayerStats ctx playerID rc).2 = rc ∧
  (GetSeason ctx rc).2 = rc.
Proof.
  split_and!; [apply GetLeaderboard_frame|apply GetPlayerStats_frame|apply GetSeason_frame].
Qed.

Lemma live_elapse (rc : Cluster) (d : N) (k : string) (v : value) (T : Z) :
  keyspace rc !! k = Some (Entry v (Some T)) → clock rc + Z.of_N d < T →
  live (elapse d rc) k = Some (Entry v (Some T)).
Proof.
  intros Hk Hd. unfold live. simpl. rewrite Hk. unfold expired. simpl.
  by rewrite bool_decide_eq_false_2 by lia.
Qed.

(** C4. After a successful [UpdateLeaderboard] of a snapshot on an empty
    cache, and for as long as the ten minutes have not run out,
    [GetPlayerStats] returns for every player of the snapshot the attributes
    embedded there (those of the entry itself when identifiers are unique
    within the snapshot, as the data model requires) and a cache miss for
    every identifier that is not in the snapshot. *)
Theorem GetPlayerStats_after_UpdateLeaderboard
    (LA : Lossless PlayerAttribute)
    (ctx ctx' : Context) (lb : LeaderboardResponse) (rc rc' : Cluster) (d : N) :
  keyspace rc = ∅ →
  UpdateLeaderboard ctx lb rc = (None, rc') →
  ctx_done ctx' = false →
  Z.of_N d < 10 * time.Minute →
  (∀ p, p ∈ Included lb →
     ∃ a, last_attributes (ID p) (Included lb) = Some a ∧
       GetPlayerStats ctx' (ID p) (elapse d rc') = (Ok a, elapse d rc') ∧
       (NoDup (player_ids lb) → a = Attributes p)) ∧
  (∀ playerID, playerID ∉ player_ids lb →
     GetPlayerStats ctx' playerID (elapse d rc') = (Err ErrCacheMiss, elapse d rc')).
Proof.
  intros Hempty Hok Hctx Hd.
  destruct (UpdateLeaderboard_ok _ _ _ _ Hok)
    as (Href & Hclock & Hreach & _ & Hplayers & Hframe).
  apply refused_None in Href as [_ Hup].
  assert (refused ctx' (elapse d rc') = None) as Href'.
  { apply refused_None. simpl. split; [done|congruence]. }
  assert (∀ id r, (GetPlayerStats ctx' id (elapse d rc')).1 = r →
                  GetPlayerStats ctx' id (elapse d rc') = (r, elapse d rc')) as Hpair.
  { intros id r <-. rewrite <- (GetPlayerStats_frame ctx' id (elapse d rc')) at 3.
    apply surjective_pairing. }
  split.
  - intros p Hp. destruct (last_attributes_is_Some p _ Hp) as [a Ha].
    exists a. split_and!; [done| |].
    + apply Hpair. rewrite (GetPlayerStats_result _ _ _ Href').
      destruct (Hplayers _ _ Ha) as (h & js & Hjs & Hk & Hh).
      erewrite live_elapse; [|exact Hk|rewrite Hclock; unfold ten_minutes; lia].
      cbv beta iota. rewrite Hh. by rewrite (lossless _ _ Hjs).
    + intros Hnd. rewrite (last_attributes_NoDup p _ Hnd Hp) in Ha. congruence.
  - intros id Hid. apply Hpair. rewrite (GetPlayerStats_result _ _ _ Href').
    rewrite live_None_keyspace; [done|]. simpl. rewrite Hframe.
    + by rewrite Hempty, lookup_empty.
    + done.
    + intros id' <-%player_key_inj. by apply last_attributes_None.
Qed.





End StoreClaims.

(** ** Backup and restore *)

Section ServiceClaims.
Context `{JL : Json LeaderboardResponse, JA : Json PlayerAttribute, JS : Json SeasonData}.
Import service.

(** C2. Restoring the artifact that [Backup] produced for a snapshot [x]
    under a name [n] gives [x] back, whatever [x] and [n] are. *)
Theorem Restore_Backup_round_trip
    (LL : Lossless LeaderboardResponse)
    (destination n : string) (x : LeaderboardResponse) (bs bs' : BlobStore) :
  spec_service.Backup destination x n bs = (None, bs') →
  spec_service.Restore destination n bs' = Ok x.
Proof.
  unfold spec_service.Backup, spec_service.Restore.
  destruct (Marshal x) as [blob|] eqn:Eblob; [|done].
  destruct (available bs) eqn:Eup; [|done].
  intros [= <-]. simpl. rewrite lookup_insert_eq.
  by rewrite (lossless _ _ Eblob).
Qed.

Lemma with_cache_same (w : World) : with_cache w (cache w) = w.
Proof. by destruct w. Qed.

(** C7. With no leaderboard snapshot in the cache,
    [BackupLeaderboardData] fails with [NothingToBackup], and blob storage
    — like everything else — is as it was. *)
Theorem BackupLeaderboardData_nothing_to_backup
    (ctx : Context) (destination name : string) (w : World) :
  refused ctx (cache w) = None →
  live (cache w) "leaderboard" = None →
  spec_service.BackupLeaderboardData ctx destination name w
  = (Some (ServiceError NothingToBackup), w).
Proof.
  intros Href Hnone. unfold spec_service.BackupLeaderboardData.
  pose proof (GetLeaderboard_result ctx (cache w) Href) as Hr.
  pose proof (GetLeaderboard_frame ctx (cache w)) as Hf.
  destruct (GetLeaderboard ctx (cache w)) as [r rc]. simpl in Hr, Hf. subst rc.
  rewrite Hnone in Hr. subst r. by rewrite with_cache_same.
Qed.

(** Whatever the outcome, a backup that read no snapshot stores nothing. *)
Lemma BackupLeaderboardData_no_snapshot_no_write
    (ctx : Context) (destination name : string) (w : World) :
  live (cache w) "leaderboard" = None →
  blobs (spec_service.BackupLeaderboardData ctx destination name w).2 = blobs w.
Proof.
  intros Hnone. unfold spec_service.BackupLeaderboardData, GetLeaderboard, call.
  destruct (refused ctx (cache w)) as [e|]; simpl.
  - by destruct e.
  - by rewrite Hnone.
Qed.

End ServiceClaims.

(** ** The HTTP boundary *)

Section ApiClaims.
Import service api.
Variable svc : LeaderboardService.
Variable timestamp : string.

(** The three read handlers hand [context.Background()] to the service:
    their answer does not depend on the request's context. *)
Lemma read_handlers_ignore_request_context (c : gin_Context) (ctx : Context) (w : World) :
  handleGetCurrentSeason svc (with_context c ctx) w = handleGetCurrentSeason svc c w ∧
  handleGetCurrentLeaderboard svc (with_context c ctx) w = handleGetCurrentLeaderboard svc c w ∧
  handleGetPlayerStats svc (with_context c ctx) w = handleGetPlayerStats svc c w.
Proof. done. Qed.


End ApiClaims.

(** ** The claims on the scenario of the design document *)

Section Scenario.
Import service api example.


Lemma scenario_keys_and_expiry :
  (∃ h js, Marshal (Attributes p2) = Some js ∧
     keyspace (UpdateLeaderboard Background scenario redis.empty).2 !! "player_stats:p2"
       = Some (Entry (VHash h) (Some (600 * time.Second))) ∧
     h !! "stats" = Some js) ∧
  (∃ data, Marshal season = Some data ∧
     keyspace (UpdateSeason Background season redis.empty).2 !! "current_season"
       = Some (Entry (VString data) (Some (86400 * time.Second)))).
Proof.
  destruct key_scheme_and_ttl as [Hlb Hseason]. split.
  - destruct (Hlb Background scenario redis.empty _ eq_refl) as (_ & Hplayers & _).
    destruct (Hplayers p2) as (h & a & js & Ha & Hjs & Hk & Hh); [by repeat constructor|].
    injection Ha as <-. by exists h, js.
  - destruct (Hseason Background season redis.empty _ eq_refl) as [(data & ? & ?) _].
    by exists data.
Defined.

Lemma scenario_player_lookup :
  Z.of_N almost_ten_minutes < 10 * time.Minute ∧
  (let rc := elapse almost_ten_minutes (UpdateLeaderboard Background scenario redis.empty).2 in
   store.GetPlayerStats Background "p2" rc
     = (Ok {| Rank := 1; GamesPlayed := 80; Wins := 20 |}, rc) ∧
   store.GetPlayerStats Background "p3" rc = (Err ErrCacheMiss, rc)).
Proof.
  split; [reflexivity|].
  assert (UpdateLeaderboard Background scenario redis.empty
          = (None, (UpdateLeaderboard Background scenario redis.empty).2)) as Hok
    by (vm_compute; reflexivity).
  destruct (GetPlayerStats_after_UpdateLeaderboard json_attributes_lossless
              Background Background scenario redis.empty _ almost_ten_minutes
              eq_refl Hok eq_refl eq_refl) as [Hin Hout].
  split.
  - destruct (Hin p2) as (a & Ha & Hget & _); [by repeat constructor|].
    injection Ha as <-. exact Hget.
  - apply Hout. intros Hp3%list_elem_of_In. simpl in Hp3. intuition discriminate.
Defined.

Lemma warm_cache_reachable : reachable_state warm_cache.
Proof. by eexists. Qed.





Lemma scenario_round_trip :
  spec_service.Restore "pubg-leaderboard" backup_name
    (spec_service.Backup "pubg-leaderboard" scenario backup_name no_blobs).2
  = Ok scenario.
Proof.
  by apply (Restore_Backup_round_trip json_leaderboard_lossless
              "pubg-leaderboard" backup_name scenario no_blobs).
Defined.

Lemma scenario_nothing_to_backup :
  spec_service.BackupLeaderboardData Background "pubg-leaderboard" backup_name fresh
  = (Some (ServiceError NothingToBackup), fresh).
Proof.
  by apply (BackupLeaderboardData_nothing_to_backup
              Background "pubg-leaderboard" backup_name fresh).
Defined.

(** C8 on the code. A request whose context is already cancelled is served
    by the three read handlers as if nothing had happened — they call the
    service with [context.Background()] — although the very read they
    trigger fails with [Canceled] under the request's context; the backup
    handler, which passes the request's context on, does fail. *)
Theorem canceled_request_is_served :
  ctx_done (Request_Context abandoned) = true ∧
  status (handleGetCurrentSeason svc abandoned warm).1 = StatusOK ∧
  status (handleGetCurrentLeaderboard svc abandoned warm).1 = StatusOK ∧
  status (handleGetPlayerStats svc abandoned warm).1 = StatusOK ∧
  (store.GetSeason (Request_Context abandoned) (cache warm)).1 = Err (RedisError Canceled) ∧
  (store.GetLeaderboard (Request_Context abandoned) (cache warm)).1 = Err (RedisError Canceled) ∧
  (store.GetPlayerStats (Request_Context abandoned) "p2" (cache warm)).1
    = Err (RedisError Canceled) ∧
  status (handleBackupLeaderboard svc timestamp abandoned warm).1 = StatusInternalServerError.
Proof. by vm_compute. Qed.


End Scenario.

(** * Further properties of the store and the handlers *)

Import cache_state.

(** ** Commands and what they touch *)

(** A command writes under its key only, and never touches the clock or
    the network. *)
Lemma run_frame (c : Cmd) (db : Cluster) :
  clock (run c db).2 = clock db ∧ reachable (run c db).2 = reachable db ∧
  ∀ k, written_key c ≠ Some k → keyspace (run c db).2 !! k = keyspace db !! k.
Proof.
  destruct c; simpl; repeat case_match; simpl; split_and!; try done;
    intros k' Hk'; try (rewrite lookup_insert_ne by congruence; done);
    try (rewrite lookup_delete_ne by congruence; done).
Qed.

Lemma run_queue_frame (q : list Cmd) :
  ∀ db, clock (run_queue q db).2 = clock db ∧ reachable (run_queue q db).2 = reachable db ∧
    ∀ k, (∀ c, c ∈ q → written_key c ≠ Some k) →
         keyspace (run_queue q db).2 !! k = keyspace db !! k.
Proof.
  induction q as [|c q IH]; intros db; [done|]. simpl.
  destruct (run_frame c db) as (Hc & Hr & Hk).
  destruct (run c db) as [r db1]. simpl in Hc, Hr, Hk.
  destruct (IH db1) as (Hc' & Hr' & Hk').
  destruct (run_queue q db1) as [err db2]. simpl in *.
  split_and!; [congruence|congruence|].
  intros k Hq. rewrite Hk', Hk; [done|..].
  - apply Hq. by rewrite elem_of_cons; auto.
  - intros c' Hc'q. apply Hq. by rewrite elem_of_cons; auto.
Qed.

(** ** The store beyond the scenario *)

Section StoreExtras.
Context `{JL : Json LeaderboardResponse, JA : Json PlayerAttribute, JS : Json SeasonData}.

Lemma live_elapse_expired (rc : Cluster) (d : N) (k : string) (v : value) (T : Z) :
  keyspace rc !! k = Some (Entry v (Some T)) → T ≤ clock rc + Z.of_N d →
  live (elapse d rc) k = None.
Proof.
  intros Hk Hd. unfold live. simpl. rewrite Hk. unfold expired. simpl.
  by rewrite bool_decide_eq_true_2 by lia.
Qed.

Lemma refused_elapse (ctx : Context) (d : N) (rc : Cluster) :
  refused ctx (elapse d rc) = refused ctx rc.
Proof. done. Qed.

Lemma read_pair {A : Type} (x : result A * Cluster) (r : result A) (rc : Cluster) :
  x.1 = r → x.2 = rc → x = (r, rc).
Proof. destruct x. simpl. congruence. Qed.

(** X1. After a successful [UpdateSeason] — on any cache — [GetSeason]
    returns the season for as long as less than twenty-four hours have
    passed, and a cache miss from then on. *)
Theorem GetSeason_after_UpdateSeason
    (LS : Lossless SeasonData)
    (ctx ctx' : Context) (season : SeasonData) (rc rc' : Cluster) (d : N) :
  UpdateSeason ctx season rc = (None, rc') →
  ctx_done ctx' = false →
  (Z.of_N d < 24 * time.Hour →
     GetSeason ctx' (elapse d rc') = (Ok season, elapse d rc')) ∧
  (24 * time.Hour ≤ Z.of_N d →
     GetSeason ctx' (elapse d rc') = (Err ErrCacheMiss, elapse d rc')).
Proof.
  intros Hok Hctx.
  assert (refused ctx rc = None) as Href.
  { unfold UpdateSeason, call in Hok. destruct (Marshal season); [|done].
    by destruct (refused ctx rc). }
  destruct (UpdateSeason_ok _ _ _ _ Hok) as (data & Hdata & ->).
  apply refused_None in Href as [_ Hup].
  assert (refused ctx' (elapse d (with_keyspace rc
            (<["current_season" := Entry (VString data) (Some (clock rc + one_day))]>
               (keyspace rc)))) = None) as Href'.
  { by apply refused_None. }
  split; intros Hd; (apply read_pair; [|apply GetSeason_frame]);
    rewrite (GetSeason_result _ _ Href').
  - erewrite live_elapse; [| apply lookup_insert_eq | simpl; unfold one_day; lia].
    cbv beta iota. by rewrite (lossless _ _ Hdata).
  - erewrite live_elapse_expired; [done | apply lookup_insert_eq | simpl; unfold one_day; lia].
Qed.

Lemma refused_after_update (ctx ctx' : Context) (rc rc' : Cluster) (d : N) :
  refused ctx rc = None → reachable rc' = reachable rc → ctx_done ctx' = false →
  refused ctx' (elapse d rc') = None.
Proof.
  intros [_ Hup]%refused_None Hreach Hctx. apply refused_None. simpl.
  split; [done|congruence].
Qed.

(** The players of a snapshot that went through: served until the ten
    minutes are over, gone afterwards. *)
Lemma players_after_update
    (LA : Lossless PlayerAttribute)
    (ctx ctx' : Context) (lb : LeaderboardResponse) (rc rc' : Cluster) (d : N)
    (p : PlayerEntry) :
  UpdateLeaderboard ctx lb rc = (None, rc') →
  ctx_done ctx' = false → p ∈ Included lb →
  ∃ a, last_attributes (ID p) (Included lb) = Some a ∧
    (Z.of_N d < ten_minutes →
       GetPlayerStats ctx' (ID p) (elapse d rc') = (Ok a, elapse d rc')) ∧
    (ten_minutes ≤ Z.of_N d →
       GetPlayerStats ctx' (ID p) (elapse d rc') = (Err ErrCacheMiss, elapse d rc')).
Proof.
  intros Hok Hctx Hp.
  destruct (UpdateLeaderboard_ok _ _ _ _ Hok)
    as (Href & Hclock & Hreach & _ & Hplayers & _).
  pose proof (refused_after_update _ _ _ _ d Href Hreach Hctx) as Href'.
  destruct (last_attributes_is_Some p _ Hp) as [a Ha].
  destruct (Hplayers _ _ Ha) as (h & js & Hjs & Hk & Hh).
  exists a. split; [done|].
  split; intros Hd; (apply read_pair; [|apply GetPlayerStats_frame]);
    rewrite (GetPlayerStats_result _ _ _ Href').
  - erewrite live_elapse; [| exact Hk | rewrite Hclock; lia].
    cbv beta iota. rewrite Hh. by rewrite (lossless _ _ Hjs).
  - erewrite live_elapse_expired; [done | exact Hk | rewrite Hclock; lia].
Qed.

(** X2. After a successful [UpdateLeaderboard] — on any cache, whatever it
    held before — [GetLeaderboard] returns the snapshot and [GetPlayerStats]
    the attributes of each of its players for as long as less than ten
    minutes have passed; from ten minutes on both are cache misses. *)
Theorem snapshot_served_until_expiry
    (LL : Lossless LeaderboardResponse) (LA : Lossless PlayerAttribute)
    (ctx ctx' : Context) (lb : LeaderboardResponse) (rc rc' : Cluster) (d : N) :
  UpdateLeaderboard ctx lb rc = (None, rc') →
  ctx_done ctx' = false →
  (Z.of_N d < 10 * time.Minute →
     GetLeaderboard ctx' (elapse d rc') = (Ok lb, elapse d rc') ∧
     ∀ p, p ∈ Included lb →
       ∃ a, last_attributes (ID p) (Included lb) = Some a ∧
         GetPlayerStats ctx' (ID p) (elapse d rc') = (Ok a, elapse d rc')) ∧
  (10 * time.Minute ≤ Z.of_N d →
     GetLeaderboard ctx' (elapse d rc') = (Err ErrCacheMiss, elapse d rc') ∧
     ∀ p, p ∈ Included lb →
       GetPlayerStats ctx' (ID p) (elapse d rc') = (Err ErrCacheMiss, elapse d rc')).
Proof.
  intros Hok Hctx.
  destruct (UpdateLeaderboard_ok _ _ _ _ Hok)
    as (Href & Hclock & Hreach & (js & Hjs & Hlb) & _ & _).
  pose proof (refused_after_update _ _ _ _ d Href Hreach Hctx) as Href'.
  split; intros Hd; split.
  - apply read_pair; [|apply GetLeaderboard_frame].
    rewrite (GetLeaderboard_result _ _ Href').
    erewrite live_elapse; [| exact Hlb | rewrite Hclock; unfold ten_minutes; lia].
    cbv beta iota. by rewrite (lossless _ _ Hjs).
  - intros p Hp.
    destruct (players_after_update LA _ _ _ _ _ d p Hok Hctx Hp) as (a & Ha & Hhit & _).
    exists a. split; [done|]. by apply Hhit.
  - apply read_pair; [|apply GetLeaderboard_frame].
    rewrite (GetLeaderboard_result _ _ Href').
    erewrite live_elapse_expired;
      [done | exact Hlb | rewrite Hclock; unfold ten_minutes; lia].
  - intros p Hp.
    destruct (players_after_update LA _ _ _ _ _ d p Hok Hctx Hp) as (a & _ & _ & Hmiss).
    by apply Hmiss.
Qed.

(** Whatever its outcome, [UpdateLeaderboard] touches the [leaderboard] key
    and the keys of the snapshot's players, and nothing else. *)
Lemma UpdateLeaderboard_touches (ctx : Context) (lb : LeaderboardResponse) (rc : Cluster) :
  clock (UpdateLeaderboard ctx lb rc).2 = clock rc ∧
  reachable (UpdateLeaderboard ctx lb rc).2 = reachable rc ∧
  ∀ k, k ≠ "leaderboard" → (∀ p, p ∈ Included lb → k ≠ player_key (ID p)) →
       keyspace (UpdateLeaderboard ctx lb rc).2 !! k = keyspace rc !! k.
Proof.
  rewrite UpdateLeaderboard_spec.
  destruct (Marshal lb) as [js|]; [|done].
  destruct (player_queue (Included lb)) as [q|] eqn:Eq; [|done].
  unfold report, Exec. destruct (refused ctx rc); [done|]. simpl.
  destruct (run_queue_frame (SET "leaderboard" js ten_minutes :: q) rc) as (Hc & Hr & Hk).
  split_and!; [done|done|]. intros k Hlb Hplayers. apply Hk.
  intros c. rewrite elem_of_cons. intros [->|Hc'].
  - simpl. congruence.
  - destruct (player_queue_shape _ _ Eq) as [Hshape _].
    destruct (Hshape c Hc') as (_ & p & Hp & ->). intros [= <-]. by apply (Hplayers p).
Qed.

Lemma UpdateSeason_touches (ctx : Context) (season : SeasonData) (rc : Cluster) :
  clock (UpdateSeason ctx season rc).2 = clock rc ∧
  reachable (UpdateSeason ctx season rc).2 = reachable rc ∧
  ∀ k, k ≠ "current_season" → keyspace (UpdateSeason ctx season rc).2 !! k = keyspace rc !! k.
Proof.
  destruct (UpdateSeason_cases ctx season rc) as [->|(data & _ & ->)]; [done|].
  simpl. split_and!; [done|done|]. intros k Hk. by rewrite lookup_insert_ne.
Qed.

(** A read sees the clock, the network and its own key. *)
Lemma live_ext (rc1 rc2 : Cluster) (k : string) :
  clock rc1 = clock rc2 → keyspace rc1 !! k = keyspace rc2 !! k → live rc1 k = live rc2 k.
Proof. unfold live. by intros -> ->. Qed.

Lemma refused_ext (ctx : Context) (rc1 rc2 : Cluster) :
  reachable rc1 = reachable rc2 → refused ctx rc1 = refused ctx rc2.
Proof. unfold refused. by intros ->. Qed.

Lemma GetLeaderboard_ext (ctx : Context) (rc1 rc2 : Cluster) :
  clock rc1 = clock rc2 → reachable rc1 = reachable rc2 →
  keyspace rc1 !! "leaderboard" = keyspace rc2 !! "leaderboard" →
  (GetLeaderboard ctx rc1).1 = (GetLeaderboard ctx rc2).1.
Proof.
  intros Hc Hr Hk. pose proof (refused_ext ctx _ _ Hr) as Href.
  destruct (refused ctx rc2) as [e|] eqn:E.
  - unfold GetLeaderboard, call. rewrite Href, E. simpl. by destruct e.
  - rewrite (GetLeaderboard_result _ _ Href), (GetLeaderboard_result _ _ E). by rewrite (live_ext _ _ _ Hc Hk).
Qed.

Lemma GetSeason_ext (ctx : Context) (rc1 rc2 : Cluster) :
  clock rc1 = clock rc2 → reachable rc1 = reachable rc2 →
  keyspace rc1 !! "current_season" = keyspace rc2 !! "current_season" →
  (GetSeason ctx rc1).1 = (GetSeason ctx rc2).1.
Proof.
  intros Hc Hr Hk. pose proof (refused_ext ctx _ _ Hr) as Href.
  destruct (refused ctx rc2) as [e|] eqn:E.
  - unfold GetSeason, call. rewrite Href, E. simpl. by destruct e.
  - rewrite (GetSeason_result _ _ Href), (GetSeason_result _ _ E). by rewrite (live_ext _ _ _ Hc Hk).
Qed.

Lemma GetPlayerStats_ext (ctx : Context) (playerID : string) (rc1 rc2 : Cluster) :
  clock rc1 = clock rc2 → reachable rc1 = reachable rc2 →
  keyspace rc1 !! player_key playerID = keyspace rc2 !! player_key playerID →
  (GetPlayerStats ctx playerID rc1).1 = (GetPlayerStats ctx playerID rc2).1.
Proof.
  intros Hc Hr Hk. pose proof (refused_ext ctx _ _ Hr) as Href.
  destruct (refused ctx rc2) as [e|] eqn:E.
  - unfold GetPlayerStats, call. rewrite Href, E. simpl. by destruct e.
  - rewrite (GetPlayerStats_result _ _ _ Href), (GetPlayerStats_result _ _ _ E). by rewrite (live_ext _ _ _ Hc Hk).
Qed.

(** X3. A player dropped by a later snapshot is still served with the
    attributes of the snapshot that last contained it, until the ten minutes
    of that snapshot are over; from then on [GetPlayerStats] is a cache
    miss. *)
Theorem dropped_player_served_until_expiry
    (LA : Lossless PlayerAttribute)
    (ctx1 ctx2 ctx' : Context) (old new : LeaderboardResponse)
    (rc rc1 rc2 : Cluster) (d1 d2 : N) (p : PlayerEntry) :
  UpdateLeaderboard ctx1 old rc = (None, rc1) →
  UpdateLeaderboard ctx2 new (elapse d1 rc1) = (None, rc2) →
  ctx_done ctx' = false →
  p ∈ Included old → ID p ∉ player_ids new →
  ∃ a, last_attributes (ID p) (Included old) = Some a ∧
    (Z.of_N d1 + Z.of_N d2 < 10 * time.Minute →
       GetPlayerStats ctx' (ID p) (elapse d2 rc2) = (Ok a, elapse d2 rc2)) ∧
    (10 * time.Minute ≤ Z.of_N d1 + Z.of_N d2 →
       GetPlayerStats ctx' (ID p) (elapse d2 rc2) = (Err ErrCacheMiss, elapse d2 rc2)).
Proof.
  intros Hold Hnew Hctx Hp Hout.
  destruct (UpdateLeaderboard_ok _ _ _ _ Hold) as (_ & Hclock1 & _ & _ & Hplayers & _).
  destruct (UpdateLeaderboard_ok _ _ _ _ Hnew) as (Href & Hclock2 & Hreach2 & _ & _ & Hframe).
  pose proof (refused_after_update _ _ _ _ d2 Href Hreach2 Hctx) as Href'.
  destruct (last_attributes_is_Some p _ Hp) as [a Ha].
  destruct (Hplayers _ _ Ha) as (h & js & Hjs & Hk & Hh).
  assert (keyspace rc2 !! player_key (ID p)
          = Some (Entry (VHash h) (Some (clock rc + ten_minutes)))) as Hk2.
  { rewrite Hframe; [exact Hk|apply player_key_leaderboard|].
    intros id <-%player_key_inj. by apply last_attributes_None. }
  simpl in Hclock2.
  exists a. split; [done|].
  split; intros Hd; (apply read_pair; [|apply GetPlayerStats_frame]);
    rewrite (GetPlayerStats_result _ _ _ Href').
  - erewrite live_elapse; [| exact Hk2 | unfold ten_minutes; lia].
    cbv beta iota. rewrite Hh. by rewrite (lossless _ _ Hjs).
  - erewrite live_elapse_expired; [done | exact Hk2 | unfold ten_minutes; lia].
Qed.

(** X4. Whatever its outcome, [UpdateLeaderboard] changes neither what
    [GetSeason] returns nor what [GetPlayerStats] returns for an identifier
    that is not in the snapshot, now or later. *)
Theorem UpdateLeaderboard_leaves_others
    (ctx ctx' : Context) (lb : LeaderboardResponse) (rc : Cluster) (d : N) :
  (GetSeason ctx' (elapse d (UpdateLeaderboard ctx lb rc).2)).1
    = (GetSeason ctx' (elapse d rc)).1 ∧
  ∀ playerID, playerID ∉ player_ids lb →
    (GetPlayerStats ctx' playerID (elapse d (UpdateLeaderboard ctx lb rc).2)).1
    = (GetPlayerStats ctx' playerID (elapse d rc)).1.
Proof.
  destruct (UpdateLeaderboard_touches ctx lb rc) as (Hc & Hr & Hk). split.
  - apply GetSeason_ext; simpl; [congruence|done|]. apply Hk; [done|].
    intros p _. apply not_eq_sym, player_key_season.
  - intros id Hid. apply GetPlayerStats_ext; simpl; [congruence|done|]. apply Hk.
    + apply player_key_leaderboard.
    + intros p Hp Heq%player_key_inj. apply Hid. subst id.
      apply list_elem_of_fmap. by exists p.
Qed.

(** X5. Whatever its outcome, [UpdateSeason] changes neither what
    [GetLeaderboard] returns nor what [GetPlayerStats] returns for any
    player, now or later. *)
Theorem UpdateSeason_leaves_leaderboard
    (ctx ctx' : Context) (season : SeasonData) (rc : Cluster) (d : N) :
  (GetLeaderboard ctx' (elapse d (UpdateSeason ctx season rc).2)).1
    = (GetLeaderboard ctx' (elapse d rc)).1 ∧
  ∀ playerID,
    (GetPlayerStats ctx' playerID (elapse d (UpdateSeason ctx season rc).2)).1
    = (GetPlayerStats ctx' playerID (elapse d rc)).1.
Proof.
  destruct (UpdateSeason_touches ctx season rc) as (Hc & Hr & Hk). split.
  - apply GetLeaderboard_ext; simpl; [congruence|done|]. by apply Hk.
  - intros id. apply GetPlayerStats_ext; simpl; [congruence|done|]. apply Hk.
    apply player_key_season.
Qed.

(** X6. Under a cancelled context or with the cluster out of reach every
    method fails and leaves the cache as it was. [Ping], the reads and
    [UpdateSeason] hand the error of go-redis on unchanged (so it is never
    the cache-miss sentinel); [UpdateLeaderboard] wraps it in its own
    message; a record that does not serialize is reported first. *)
Theorem refused_calls_fail_without_writing
    (ctx : Context) (rc : Cluster) (e : Error)
    (lb : LeaderboardResponse) (season : SeasonData) (playerID : string) :
  refused ctx rc = Some e →
  (e = Canceled ∨ e = Unreachable) ∧
  Ping ctx rc = (Some (RedisError e), rc) ∧
  GetLeaderboard ctx rc = (Err (RedisError e), rc) ∧
  GetPlayerStats ctx playerID rc = (Err (RedisError e), rc) ∧
  GetSeason ctx rc = (Err (RedisError e), rc) ∧
  (∃ err, UpdateSeason ctx season rc = (Some err, rc) ∧
     (err = RedisError e ∨ EncodeError err)) ∧
  (∃ err, UpdateLeaderboard ctx lb rc = (Some err, rc) ∧
     (err = Errorf "redisclient - error updating leaderboard in Redis" (RedisFailure e)
      ∨ EncodeError err)).
Proof.
  intros Href.
  assert (e = Canceled ∨ e = Unreachable) as He.
  { unfold refused in Href. destruct (ctx_done ctx); [left; congruence|].
    destruct (reachable rc); [done|right; congruence]. }
  split; [done|].
  unfold Ping, GetLeaderboard, GetPlayerStats, GetSeason, UpdateSeason, call.
  rewrite UpdateLeaderboard_spec. unfold report, Exec. rewrite Href. simpl.
  split_and!; try (by destruct He as [->| ->]).
  - destruct (Marshal season); eexists; (split; [done|]); [by left|].
    right. left. by eexists.
  - destruct (Marshal lb); [destruct (player_queue (Included lb))|];
      eexists; (split; [done|]); [by left|right; left; by eexists..].
Qed.


Lemma stats_entry_hash_at (db : Cluster) (k js : string) :
  stats_entry db k js
  = Entry (VHash (<["stats" := js]> (hash_at db k))) (Some (clock db + ten_minutes)).
Proof. reflexivity. Qed.

Lemma hash_at_ext (db1 db2 : Cluster) (k : string) :
  clock db1 = clock db2 → keyspace db1 !! k = keyspace db2 !! k →
  hash_at db1 k = hash_at db2 k.
Proof. intros Hc Hk. unfold hash_at, live. by rewrite Hc, Hk. Qed.

Lemma hash_at_fresh (db : Cluster) (k : string) (h : gmap string string) :
  keyspace db !! k = Some (Entry (VHash h) (Some (clock db + ten_minutes))) →
  hash_at db k = h.
Proof.
  intros Hk. unfold hash_at, live. rewrite Hk. unfold expired. simpl.
  rewrite bool_decide_eq_false_2; [done|]. pose proof ten_minutes_pos. lia.
Qed.

(** The hash of each player after the players' commands: the hash that was
    live under the key, with the field [stats] set. *)
Lemma run_player_queue_exact (players : list PlayerEntry) :
  ∀ (q : list Cmd) (db db' : Cluster),
    player_queue players = Some q →
    run_queue q db = (None, db') →
    ∀ id a, last_attributes id players = Some a →
      ∃ js, Marshal a = Some js ∧
        keyspace db' !! player_key id
        = Some (Entry (VHash (<["stats" := js]> (hash_at db (player_key id))))
                      (Some (clock db + ten_minutes))).
Proof.
  induction players as [|p players IH]; intros q db db' Hq Hrun id a Ha; [done|].
  simpl in Hq.
  destruct (Marshal (Attributes p)) as [js|] eqn:Ejs; simpl in Hq; [|done].
  destruct (player_queue players) as [q'|] eqn:Eq'; simpl in Hq; [|done].
  injection Hq as <-.
  assert (¬ holds_string db (player_key (ID p))) as Hk.
  { intros Hs. eapply run_HSET_string in Hs. rewrite Hrun in Hs. done. }
  rewrite (run_HSET_EXPIRE _ _ _ _ Hk) in Hrun.
  simpl in Ha. destruct (last_attributes id players) as [a'|] eqn:Ea'.
  - injection Ha as <-.
    destruct (IH _ _ _ eq_refl Hrun id a' Ea') as (js' & Hjs' & Hk'). simpl in Hk'.
    exists js'. split; [done|]. rewrite Hk'. do 3 f_equal.
    destruct (decide (player_key (ID p) = player_key id)) as [Heq|Hne].
    + rewrite <- Heq. erewrite hash_at_fresh; last first.
      { simpl. rewrite lookup_insert_eq. by rewrite stats_entry_hash_at. }
      by rewrite insert_insert_eq.
    + f_equal. apply hash_at_ext; [done|]. simpl. by rewrite lookup_insert_ne.
  - case_decide as Hid; [|done]. injection Ha as <-. subst id.
    destruct (run_player_queue_inv _ _ _ _ Eq' Hrun) as (_ & _ & Hframe & _).
    exists js. split; [done|]. rewrite Hframe.
    + simpl. rewrite lookup_insert_eq. by rewrite stats_entry_hash_at.
    + by intros id <-%player_key_inj.
Qed.

Lemma UpdateLeaderboard_exact (ctx : Context) (lb : LeaderboardResponse) (rc rc' : Cluster) :
  UpdateLeaderboard ctx lb rc = (None, rc') →
  ∀ id a, last_attributes id (Included lb) = Some a →
    ∃ js, Marshal a = Some js ∧
      keyspace rc' !! player_key id
      = Some (Entry (VHash (<["stats" := js]> (hash_at rc (player_key id))))
                    (Some (clock rc + ten_minutes))).
Proof.
  rewrite UpdateLeaderboard_spec.
  destruct (Marshal lb) as [js|] eqn:Ejs; [|done].
  destruct (player_queue (Included lb)) as [q|] eqn:Eq; [|done].
  unfold report, Exec. destruct (refused ctx rc) as [e|] eqn:Eref; [done|].
  erewrite run_queue_cons_ok by reflexivity.
  destruct (run_queue q _) as [[e|] rc1] eqn:Erun; [done|]. simpl. intros [= <-] id a Ha.
  destruct (run_player_queue_exact _ _ _ _ Eq Erun id a Ha) as (js' & Hjs' & Hk).
  exists js'. split; [done|]. rewrite Hk. simpl. do 3 f_equal. f_equal.
  apply hash_at_ext; [done|]. simpl. by rewrite lookup_insert_ne.
Qed.

Lemma Cluster_eq (rc1 rc2 : Cluster) :
  keyspace rc1 = keyspace rc2 → clock rc1 = clock rc2 → reachable rc1 = reachable rc2 →
  rc1 = rc2.
Proof. destruct rc1, rc2. simpl. by intros -> -> ->. Qed.

(** X8. Writing the same snapshot again at the same instant changes
    nothing: a second [UpdateLeaderboard] succeeds and leaves the cache as
    the first one left it. *)
Theorem UpdateLeaderboard_idempotent
    (ctx : Context) (lb : LeaderboardResponse) (rc rc' : Cluster) :
  UpdateLeaderboard ctx lb rc = (None, rc') →
  UpdateLeaderboard ctx lb rc' = (None, rc').
Proof.
  intros Hok.
  destruct (UpdateLeaderboard_ok _ _ _ _ Hok)
    as (Href & Hclock & Hreach & (js & Hjs & Hlb) & Hplayers & Hframe).
  assert (∃ rc'', UpdateLeaderboard ctx lb rc' = (None, rc'')) as [rc'' Hok'].
  { rewrite UpdateLeaderboard_spec in Hok |- *. rewrite Hjs in Hok |- *.
    destruct (player_queue (Included lb)) as [q|] eqn:Eq; [|done].
    clear Hok. unfold report, Exec.
    assert (refused ctx rc' = None) as ->.
    { apply refused_None. apply refused_None in Href. by rewrite Hreach. }
    erewrite run_queue_cons_ok by reflexivity.
    edestruct (run_player_queue_total (Included lb) q) as [db' ->]; [done| |by eexists].
    intros p Hp (s & t & [Hl _]%live_Some_keyspace). simpl in Hl.
    rewrite lookup_insert_ne in Hl by done.
    destruct (last_attributes_is_Some p _ Hp) as [a Ha].
    destruct (Hplayers _ _ Ha) as (h & js' & _ & Hk & _). congruence. }
  rewrite Hok'. f_equal.
  destruct (UpdateLeaderboard_ok _ _ _ _ Hok')
    as (_ & Hclock' & Hreach' & (js2 & Hjs2 & Hlb') & _ & Hframe').
  apply Cluster_eq; [|done|done]. apply map_eq. intros k.
  destruct (decide (k = "leaderboard")) as [->|Hk].
  { rewrite Hlb, Hlb'. congruence. }
  destruct (decide (k ∈ (λ p, player_key (ID p)) <$> Included lb)) as [Hin|Hout].
  - apply list_elem_of_fmap in Hin as (p & -> & Hp).
    destruct (last_attributes_is_Some p _ Hp) as [a Ha].
    destruct (UpdateLeaderboard_exact _ _ _ _ Hok _ _ Ha) as (j1 & Hj1 & Hk1).
    destruct (UpdateLeaderboard_exact _ _ _ _ Hok' _ _ Ha) as (j2 & Hj2 & Hk2).
    rewrite Hk1, Hk2. assert (j2 = j1) as -> by congruence.
    rewrite (hash_at_fresh rc' _ _ ltac:(rewrite Hclock; exact Hk1)).
    by rewrite insert_insert_eq, Hclock.
  - apply Hframe'; [done|]. apply not_a_player_key. intros p Hp ->.
    apply Hout, list_elem_of_fmap. by exists p.
Qed.

Lemma ttl_of_player (id : string) : ttl_of (player_key id) = ten_minutes.
Proof. unfold ttl_of. by rewrite decide_False by apply player_key_season. Qed.

Lemma ttl_of_le (k : string) : ttl_of k ≤ one_day.
Proof. unfold ttl_of. by case_decide. Qed.

Lemma bounded_keyspace (rc rc' : Cluster) :
  keyspace rc' = keyspace rc → clock rc ≤ clock rc' → bounded rc → bounded rc'.
Proof.
  intros Hk Hc Hb k e. rewrite Hk. intros He.
  destruct (Hb k e He) as (Hs & T & HT & Hle). split; [done|]. exists T. split; [done|lia].
Qed.

Lemma bounded_UpdateLeaderboard (ctx : Context) (lb : LeaderboardResponse) (rc : Cluster) :
  follows_scheme rc → bounded rc → bounded (UpdateLeaderboard ctx lb rc).2.
Proof.
  intros Hs Hb.
  destruct (UpdateLeaderboard_cases ctx lb rc Hs) as [->|[rc' E]]; [done|].
  rewrite E. simpl.
  destruct (UpdateLeaderboard_ok _ _ _ _ E)
    as (_ & Hclock & _ & (js & _ & Hlb) & Hplayers & Hframe).
  intros k e He.
  destruct (decide (k = "leaderboard")) as [->|Hk].
  { rewrite Hlb in He. injection He as <-. split; [by left|].
    eexists. split; [done|]. rewrite Hclock. done. }
  destruct (decide (k ∈ (λ p, player_key (ID p)) <$> Included lb)) as [Hin|Hout].
  - apply list_elem_of_fmap in Hin as (p & -> & Hp).
    destruct (last_attributes_is_Some p _ Hp) as [a Ha].
    destruct (Hplayers _ _ Ha) as (h & js' & _ & Hkp & _).
    rewrite Hkp in He. injection He as <-. split; [right; right; by eexists|].
    eexists. split; [done|]. rewrite ttl_of_player, Hclock. done.
  - rewrite Hframe in He; [|done|].
    + destruct (Hb k e He) as (? & T & ? & ?). split; [done|].
      exists T. split; [done|]. by rewrite Hclock.
    + apply not_a_player_key. intros p Hp ->. apply Hout, list_elem_of_fmap. by exists p.
Qed.

Lemma bounded_UpdateSeason (ctx : Context) (season : SeasonData) (rc : Cluster) :
  bounded rc → bounded (UpdateSeason ctx season rc).2.
Proof.
  intros Hb. destruct (UpdateSeason_cases ctx season rc) as [->|(data & _ & ->)]; [done|].
  simpl. intros k e. simpl. destruct (decide (k = "current_season")) as [->|Hk].
  - rewrite lookup_insert_eq. intros [= <-]. split; [right; by left|].
    eexists. split; [done|]. done.
  - rewrite lookup_insert_ne by done. apply Hb.
Qed.

Lemma bounded_step (rc : Cluster) (c : Call) :
  follows_scheme rc → bounded rc → bounded (step rc c).
Proof.
  intros Hs Hb. destruct c; simpl.
  - by rewrite Ping_frame.
  - by rewrite GetLeaderboard_frame.
  - by apply bounded_UpdateLeaderboard.
  - by rewrite GetPlayerStats_frame.
  - by rewrite GetSeason_frame.
  - by apply bounded_UpdateSeason.
  - apply (bounded_keyspace rc); [done|simpl; lia|done].
  - by apply (bounded_keyspace rc).
Qed.

Lemma bounded_run_calls (calls : list Call) :
  ∀ rc, follows_scheme rc ∧ coherent rc → bounded rc → bounded (run_calls calls rc).
Proof.
  induction calls as [|c calls IH]; intros rc Hinv Hb; [done|].
  apply IH; [by apply invariant_step|]. apply bounded_step; [apply Hinv|done].
Qed.

(** X9. In every state the store can bring an empty cache into, every
    key is [leaderboard], [current_season] or a [player_stats:] key and
    carries an expiry instant no further away than its time to live (ten
    minutes, twenty-four hours for the season); so twenty-four hours after
    the last call nothing is live any more. *)
Theorem reachable_cache_is_bounded (rc : Cluster) :
  reachable_state rc →
  (∀ k e, keyspace rc !! k = Some e →
     scheme_key k ∧ ∃ T, expire_at e = Some T ∧ T ≤ clock rc + ttl_of k) ∧
  (∀ d k, 24 * time.Hour ≤ Z.of_N d → live (elapse d rc) k = None).
Proof.
  intros [calls ->].
  assert (bounded (run_calls calls redis.empty)) as Hb.
  { apply bounded_run_calls; [apply invariant_empty|]. by intros k e. }
  split; [exact Hb|]. intros d k Hd. unfold live. simpl.
  destruct (keyspace (run_calls calls redis.empty) !! k) as [e|] eqn:Ek; [|done].
  destruct (Hb k e Ek) as (_ & T & HT & Hle). unfold expired. rewrite HT.
  rewrite bool_decide_eq_true_2; [done|]. pose proof (ttl_of_le k). unfold one_day in *. lia.
Qed.

End StoreExtras.

(** ** The handlers beyond the claims *)

Section ApiExtras.
Import service api.
Variable svc : LeaderboardService.
Variable timestamp : string.

(** X10. The health routes: [/ping] always answers 200 with [pong];
    [/redis-ping] answers 200 exactly when the request's context is live and
    the cluster reachable, and 500 otherwise; neither changes anything. *)
Theorem health_routes (c : gin_Context) (w : World) :
  handlePing c w = (JSON 200 (H [("message", Str "pong")]), w) ∧
  (handleRedisPing c w).2 = w ∧
  (status (handleRedisPing c w).1 = 200
     ↔ ctx_done (Request_Context c) = false ∧ reachable (cache w) = true) ∧
  (status (handleRedisPing c w).1 = 500
     ↔ ctx_done (Request_Context c) = true ∨ reachable (cache w) = false).
Proof.
  split; [done|]. unfold handleRedisPing, Ping, call, refused.
  destruct w as [rc bs up]. simpl.
  destruct (ctx_done (Request_Context c)), (reachable rc); simpl;
    unfold StatusOK, StatusInternalServerError; split_and!; try done; intuition congruence.
Qed.

(** X11. A handler answers 200 exactly when the call it makes to the
    service succeeds, and the body of a read then carries exactly what the
    service returned; backups and restores always go to the bucket
    [pubg-leaderboard], a backup under the name
    [leaderboard_backup_<timestamp>.json]. *)
Theorem success_is_reported_faithfully (c : gin_Context) (w : World) :
  (∀ x, (GetCurrentSeason svc Background w).1 = Ok x
        ↔ (handleGetCurrentSeason svc c w).1 = JSON 200 (H [("seasonData", Season x)])) ∧
  (∀ lb, (GetCurrentLeaderboard svc Background w).1 = Ok lb
         ↔ (handleGetCurrentLeaderboard svc c w).1 = JSON 200 (Leaderboard lb)) ∧
  (∀ rank gamesPlayed wins,
     (GetPlayerStats svc Background (Param_playerID c) w).1 = Ok (rank, gamesPlayed, wins)
     ↔ (handleGetPlayerStats svc c w).1
       = JSON 200 (H [("playerID", Str (Param_playerID c)); ("rank", Num rank);
                      ("gamesPlayed", Num gamesPlayed); ("wins", Num wins)])) ∧
  ((BackupLeaderboardData svc (Request_Context c) "pubg-leaderboard"
      ("leaderboard_backup_" +:+ timestamp +:+ ".json") w).1 = None
   ↔ status (handleBackupLeaderboard svc timestamp c w).1 = 200) ∧
  (Query_file c ≠ EmptyString ∧
   (RestoreLeaderboardData svc (Request_Context c) "pubg-leaderboard" (Query_file c) w).1
     = None
   ↔ status (handleRestoreLeaderboard svc c w).1 = 200).
Proof.
  split_and!.
  - intros x. unfold handleGetCurrentSeason.
    destruct (GetCurrentSeason svc Background w) as [[y|e] w']; simpl;
      unfold JSON, StatusOK, StatusInternalServerError; split; intros E;
      by simplify_eq.
  - intros x. unfold handleGetCurrentLeaderboard.
    destruct (GetCurrentLeaderboard svc Background w) as [[y|e] w']; simpl;
      unfold JSON, StatusOK, StatusInternalServerError; split; intros E;
      by simplify_eq.
  - intros r g wi. unfold handleGetPlayerStats.
    destruct (GetPlayerStats svc Background (Param_playerID c) w) as [[[[x y] z]|e] w'];
      simpl; [|case_decide; simpl];
      unfold JSON, StatusOK, StatusNotFound, StatusInternalServerError; split; intros E;
      by simplify_eq.
  - unfold handleBackupLeaderboard.
    destruct (BackupLeaderboardData svc _ _ _ w) as [[e|] w']; simpl;
      unfold StatusOK, StatusInternalServerError; split; intros E; by simplify_eq.
  - unfold handleRestoreLeaderboard. case_decide as Hfile; simpl.
    + unfold StatusBadRequest. split; [by intros [? _]|done].
    + destruct (RestoreLeaderboardData svc _ _ _ w) as [[e|] w']; simpl;
        unfold StatusOK, StatusInternalServerError; split; try done; by intros [_ ?].
Qed.

End ApiExtras.

(** ** The name of a backup file *)

Section Layout.
Import layout service api.
Local Open Scope nat_scope.

Lemma digit_inj (a b : nat) : digit a = digit b → a mod 10 = b mod 10.
Proof.
  unfold digit. intros E. apply (f_equal nat_of_ascii) in E.
  pose proof (Nat.mod_upper_bound a 10). pose proof (Nat.mod_upper_bound b 10).
  rewrite !nat_ascii_embedding in E by lia. lia.
Qed.

Lemma digit_inj_small (a b : nat) : a < 10 → b < 10 → digit a = digit b → a = b.
Proof.
  intros Ha Hb E%digit_inj. by rewrite (Nat.mod_small a 10), (Nat.mod_small b 10) in E.
Qed.

Lemma pad2_inj (a b : nat) : a < 100 → b < 100 → pad2 a = pad2 b → a = b.
Proof.
  intros Ha Hb E. unfold pad2 in E.
  assert (a / 10 < 10 ∧ b / 10 < 10) as [Hqa Hqb]
    by (split; apply Nat.Div0.div_lt_upper_bound; lia).
  pose proof (Nat.div_mod_eq a 10) as Da. pose proof (Nat.div_mod_eq b 10) as Db.
  remember (a / 10) as qa. remember (b / 10) as qb.
  injection E as E1 E2. apply digit_inj in E2. apply digit_inj_small in E1; lia.
Qed.

Lemma pad4_inj (a b : nat) : a < 100 * 100 → b < 100 * 100 → pad4 a = pad4 b → a = b.
Proof.
  intros Ha Hb E. unfold pad4, pad2 in E.
  assert (a / 1000 < 10 ∧ b / 1000 < 10) as [Hqa Hqb]
    by (split; apply Nat.Div0.div_lt_upper_bound; lia).
  pose proof (Nat.div_mod_eq a 10) as Da. pose proof (Nat.div_mod_eq b 10) as Db.
  pose proof (Nat.div_mod_eq (a / 10) 10) as Da1.
  pose proof (Nat.div_mod_eq (b / 10) 10) as Db1.
  pose proof (Nat.div_mod_eq (a / 100) 10) as Da2.
  pose proof (Nat.div_mod_eq (b / 100) 10) as Db2.
  rewrite !Nat.Div0.div_div in Da1, Db1, Da2, Db2.
  change (10 * 10) with 100 in *. change (100 * 10) with 1000 in *.
  remember (a / 10) as a1. remember (b / 10) as b1.
  remember (a / 100) as a2. remember (b / 100) as b2.
  remember (a / 1000) as a3. remember (b / 1000) as b3.
  injection E as E1 E2 E3 E4. apply digit_inj in E2, E3, E4.
  apply digit_inj_small in E1; lia.
Qed.

Lemma pad2_append_inj (a b : nat) (s1 s2 : string) :
  pad2 a +:+ s1 = pad2 b +:+ s2 → pad2 a = pad2 b ∧ s1 = s2.
Proof.
  unfold pad2. generalize (digit (a / 10)) (digit a) (digit (b / 10)) (digit b).
  intros c1 c2 c3 c4 E. injection E as -> -> E. split; [done|exact E].
Qed.

Lemma pad4_append_inj (a b : nat) (s1 s2 : string) :
  pad4 a +:+ s1 = pad4 b +:+ s2 → pad4 a = pad4 b ∧ s1 = s2.
Proof.
  unfold pad4, pad2.
  generalize (digit (a / 1000)) (digit (a / 100)) (digit (a / 10)) (digit a)
             (digit (b / 1000)) (digit (b / 100)) (digit (b / 10)) (digit b).
  intros c1 c2 c3 c4 c5 c6 c7 c8 E. injection E as -> -> -> -> E. split; [done|exact E].
Qed.

Lemma Format_append_inj (t1 t2 : Time) (s1 s2 : string) :
  wall_clock t1 → wall_clock t2 → Format t1 +:+ s1 = Format t2 +:+ s2 → t1 = t2 ∧ s1 = s2.
Proof.
  intros (Hy1 & Hm1 & Hd1 & Hh1 & Hi1 & Hs1) (Hy2 & Hm2 & Hd2 & Hh2 & Hi2 & Hs2).
  destruct t1 as [y1 m1 d1 h1 i1 c1], t2 as [y2 m2 d2 h2 i2 c2].
  unfold Format. cbv [Year Month Day Hour Minute Second] in *.
  rewrite !append_assoc. intros E.
  apply pad4_append_inj in E as [Ey E]. apply pad2_append_inj in E as [Em E].
  apply pad2_append_inj in E as [Ed E].
  apply (inj (String.app _)) in E.
  apply pad2_append_inj in E as [Eh E]. apply pad2_append_inj in E as [Ei E].
  apply pad2_append_inj in E as [Es E].
  apply pad4_inj in Ey; [|lia..]. apply pad2_inj in Em, Ed, Eh, Ei, Es; [|lia..].
  by subst.
Qed.

(** X12. Two backups that succeed at different seconds report different
    file names: the name [handleBackupLeaderboard] builds from the time of
    the request determines that time. *)
Theorem backup_files_do_not_collide
    (svc : LeaderboardService) (t1 t2 : Time) (c1 c2 : gin_Context) (w1 w2 : World) :
  wall_clock t1 → wall_clock t2 →
  status (handleBackupLeaderboard svc (Format t1) c1 w1).1 = 200%Z →
  body (handleBackupLeaderboard svc (Format t1) c1 w1).1
    = body (handleBackupLeaderboard svc (Format t2) c2 w2).1 →
  t1 = t2.
Proof.
  intros Hw1 Hw2. unfold handleBackupLeaderboard.
  destruct (BackupLeaderboardData svc _ _ _ w1) as [[e1|] w1']; simpl; [done|].
  destruct (BackupLeaderboardData svc _ _ _ w2) as [[e2|] w2']; simpl; [done|].
  intros _ E.
  assert ("leaderboard_backup_" +:+ Format t1 +:+ ".json"
          = "leaderboard_backup_" +:+ Format t2 +:+ ".json") as E' by congruence.
  apply (inj (String.app _)) in E'.
  by apply Format_append_inj in E' as [-> _].
Qed.

End Layout.

(** ** The constructor *)

Section ClientExtras.
Import client.

End ClientExtras.

(** ** The further properties on concrete inputs *)

Section Samples.
Import example sample.

Lemma sample_season_expiry :
  store.GetSeason Background
    (elapse almost_one_day (UpdateSeason Background season redis.empty).2)
  = (Ok season, elapse almost_one_day (UpdateSeason Background season redis.empty).2) ∧
  store.GetSeason Background
    (elapse one_day_sharp (UpdateSeason Background season redis.empty).2)
  = (Err ErrCacheMiss, elapse one_day_sharp (UpdateSeason Background season redis.empty).2).
Proof.
  assert (UpdateSeason Background season redis.empty
          = (None, (UpdateSeason Background season redis.empty).2)) as Hok
    by (vm_compute; reflexivity).
  split.
  - destruct (GetSeason_after_UpdateSeason json_season_lossless
                Background Background season redis.empty _ almost_one_day Hok eq_refl)
      as [Hhit _].
    apply Hhit. reflexivity.
  - destruct (GetSeason_after_UpdateSeason json_season_lossless
                Background Background season redis.empty _ one_day_sharp Hok eq_refl)
      as [_ Hmiss].
    apply Hmiss. discriminate.
Defined.

Lemma scenario_update_succeeds :
  UpdateLeaderboard Background scenario redis.empty
  = (None, (UpdateLeaderboard Background scenario redis.empty).2).
Proof. by vm_compute. Qed.

Lemma sample_snapshot_expiry :
  store.GetLeaderboard Background
    (elapse almost_ten_minutes (UpdateLeaderboard Background scenario redis.empty).2)
  = (Ok scenario,
     elapse almost_ten_minutes (UpdateLeaderboard Background scenario redis.empty).2) ∧
  store.GetPlayerStats Background "p1"
    (elapse ten_minutes_sharp (UpdateLeaderboard Background scenario redis.empty).2)
  = (Err ErrCacheMiss,
     elapse ten_minutes_sharp (UpdateLeaderboard Background scenario redis.empty).2).
Proof.
  split.
  - destruct (snapshot_served_until_expiry json_leaderboard_lossless json_attributes_lossless
                Background Background scenario redis.empty _ almost_ten_minutes
                scenario_update_succeeds eq_refl) as [Hhit _].
    destruct Hhit as [Hlb _]; [reflexivity|]. exact Hlb.
  - destruct (snapshot_served_until_expiry json_leaderboard_lossless json_attributes_lossless
                Background Background scenario redis.empty _ ten_minutes_sharp
                scenario_update_succeeds eq_refl) as [_ Hmiss].
    destruct Hmiss as [_ Hplayers]; [discriminate|].
    apply (Hplayers p1). repeat constructor.
Defined.

Lemma lone_update_succeeds :
  UpdateLeaderboard Background lone
    (elapse one_minute (UpdateLeaderboard Background scenario redis.empty).2)
  = (None, (UpdateLeaderboard Background lone
              (elapse one_minute (UpdateLeaderboard Background scenario redis.empty).2)).2).
Proof. by vm_compute. Qed.

Lemma sample_dropped_player :
  store.GetPlayerStats Background "p2"
    (elapse one_minute
       (UpdateLeaderboard Background lone
          (elapse one_minute (UpdateLeaderboard Background scenario redis.empty).2)).2)
  = (Ok {| Rank := 1; GamesPlayed := 80; Wins := 20 |},
     elapse one_minute
       (UpdateLeaderboard Background lone
          (elapse one_minute (UpdateLeaderboard Background scenario redis.empty).2)).2).
Proof.
  destruct (dropped_player_served_until_expiry json_attributes_lossless
              Background Background Background scenario lone redis.empty _ _
              one_minute one_minute p2 scenario_update_succeeds lone_update_succeeds eq_refl)
    as (a & Ha & Hhit & _).
  - repeat constructor.
  - intros Hin%list_elem_of_In. simpl in Hin. intuition discriminate.
  - injection Ha as <-. apply Hhit. reflexivity.
Defined.

Lemma sample_refused :
  store.GetLeaderboard (RequestContext true) warm_cache
    = (Err (RedisError Canceled), warm_cache) ∧
  store.GetPlayerStats Background "p2" unplugged
    = (Err (RedisError Unreachable), unplugged).
Proof.
  split.
  - destruct (refused_calls_fail_without_writing (RequestContext true) warm_cache Canceled
                scenario season "p2" eq_refl) as (_ & _ & Hget & _).
    exact Hget.
  - destruct (refused_calls_fail_without_writing Background unplugged Unreachable
                scenario season "p2" eq_refl) as (_ & _ & _ & Hget & _).
    exact Hget.
Defined.


Lemma sample_idempotent :
  UpdateLeaderboard Background scenario (UpdateLeaderboard Background scenario redis.empty).2
  = (None, (UpdateLeaderboard Background scenario redis.empty).2).
Proof.
  exact (UpdateLeaderboard_idempotent Background scenario redis.empty _
           scenario_update_succeeds).
Defined.

Lemma sample_bounded :
  live (elapse one_day_sharp warm_cache) "current_season" = None ∧
  live (elapse one_day_sharp warm_cache) (player_key "p1") = None.
Proof.
  destruct (reachable_cache_is_bounded warm_cache warm_cache_reachable) as [_ Hgone].
  split; apply Hgone; discriminate.
Defined.

Lemma sample_backup_names :
  layout.wall_clock noon ∧ layout.wall_clock noon_and_a_second ∧
  api.body (api.handleBackupLeaderboard svc (layout.Format noon)
              (api.with_context abandoned Background) warm).1
  ≠ api.body (api.handleBackupLeaderboard svc (layout.Format noon_and_a_second)
                (api.with_context abandoned Background) warm).1.
Proof.
  assert (layout.wall_clock noon ∧ layout.wall_clock noon_and_a_second) as [H1 H2].
  { unfold layout.wall_clock. simpl. lia. }
  split_and!; [done|done|]. intros E.
  assert (noon = noon_and_a_second) as Heq; [|discriminate Heq].
  apply (backup_files_do_not_collide svc noon noon_and_a_second
           (api.with_context abandoned Background) (api.with_context abandoned Background)
           warm warm H1 H2); [vm_compute; reflexivity|exact E].
Defined.

End Samples.
